(** * Bluesky automation API: scraper pagination / deduplication and the
      bulk-follow protocol of [main.py], embedded and verified.

    The Python program is embedded shallowly:
    - Python values that cross the JSON boundary are the inductive [pyval];
      caller-supplied account records and follow results are Python dicts,
      modelled as [gmap string pyval];
    - the scraper's seen-set is a [gset string];
    - the atproto client, the wall clock and [time.sleep] are the outside
      world: every interaction is appended to a trace and the answer of the
      remote service is an arbitrary function of the trace so far;
    - exceptions are values of a small error monad, [try ... except
      Exception] is the combinator [try_except];
    - [logger] calls have no effect on any value and are left out. *)

From Stdlib Require Import ZArith String Ascii List Lia Floats.SpecFloat.
From stdpp Require Import base gmap strings list fin_maps.

Local Open Scope Z_scope.
Set Warnings "-register-all,-clear-no-such-hyp,-level-tolerance".

(** ** Python values *)

Inductive pyval : Type :=
| VNone
| VBool (b : bool)
| VInt (n : Z)
| VFloat (f : spec_float)
| VStr (s : string)
| VList (l : list pyval)
| VDict (d : list (string * pyval)).

(** Python truthiness ([bool(v)]), as used by [if v], [not v], [a or b]. *)
Definition truthy (v : pyval) : bool :=
  match v with
  | VNone => false
  | VBool b => b
  | VInt n => negb (n =? 0)
  | VFloat (S754_zero _) => false
  | VFloat _ => true
  | VStr s => negb (String.eqb s EmptyString)
  | VList l => match l with [] => false | _ => true end
  | VDict d => match d with [] => false | _ => true end
  end.

(** [a or b] *)
Definition py_or (a b : pyval) : pyval := if truthy a then a else b.

(** [d.get(k)]: the value, or [None] when the key is absent. *)
Definition dict_get (d : gmap string pyval) (k : string) : pyval :=
  default VNone (d !! k).

(** [d.get(k, dflt)] *)
Definition dict_get_default (d : gmap string pyval) (k : string) (dflt : pyval) : pyval :=
  default dflt (d !! k).

(** [l[:n]] for a Python integer [n]. *)
Definition py_slice_to {A} (l : list A) (n : Z) : list A :=
  if n <? 0 then take (Z.to_nat (Z.of_nat (length l) + n)) l
  else take (Z.to_nat n) l.

(** ** Strings

    Strings are sequences of bytes.  [lower] maps the ASCII capitals to
    small letters and leaves every other byte alone; the two patterns the
    program searches for in a lowered message are plain ASCII without the
    letter k, so no non-ASCII character lowers into a match. *)

Definition lower_ascii (c : ascii) : ascii :=
  let n := nat_of_ascii c in
  if ((65 <=? n)%nat && (n <=? 90)%nat)%bool then ascii_of_nat (n + 32) else c.

Fixpoint lower (s : string) : string :=
  match s with
  | EmptyString => EmptyString
  | String c s' => String (lower_ascii c) (lower s')
  end.

(** [sub in s] *)
Fixpoint contains (sub s : string) : bool :=
  if String.prefix sub s then true
  else match s with
       | EmptyString => false
       | String _ s' => contains sub s'
       end.

(** ** Exceptions and the world *)

Record pyexn := mkExn { exn_type : string; exn_str : string }.

Inductive result (A : Type) : Type :=
| Ok (a : A)
| Raise (e : pyexn).
Arguments Ok {A} a.
Arguments Raise {A} e.

(** A raw actor of a search page.  [did] and [handle] are required by the
    service; the other attributes may be absent ([None] here). *)
Record Actor := mkActor {
  actor_did : string;
  actor_handle : string;
  actor_display_name : option pyval;
  actor_description : option pyval;
  actor_avatar : option pyval;
  actor_followers_count : option pyval
}.

(** The parameters of one [search_actors] request. *)
Record search_params := mkParams {
  param_q : string;
  param_limit : Z;
  param_cursor : option string
}.

(** A search response; [None] stands for a missing attribute. *)
Record search_response := mkResponse {
  resp_actors : option (list Actor);
  resp_cursor : option string
}.

(** What [client.follow] returns; [None] when it has no [uri] attribute. *)
Record follow_response := mkFollowResponse {
  resp_uri : option pyval
}.

Inductive event : Type :=
| EvSearch (p : search_params) (r : result search_response)
| EvFollow (target : pyval) (r : result follow_response)
| EvNow (iso : string)
| EvSleep (secs : Z).

(** The behaviour of everything outside the program: each answer may depend
    on the whole history of interactions. *)
Record Remote := mkRemote {
  remote_search : list event -> search_params -> result search_response;
  remote_follow : list event -> pyval -> result follow_response;
  remote_clock : list event -> string
}.

Record World := mkWorld {
  remote : Remote;
  trace : list event   (* oldest first *)
}.

Definition emit (e : event) (w : World) : World :=
  mkWorld (remote w) (trace w ++ [e]).

(** ** The monad of effectful code *)

Definition M (A : Type) : Type := World -> result A * World.

Definition ret {A} (a : A) : M A := fun w => (Ok a, w).

Definition bind {A B} (m : M A) (k : A -> M B) : M B :=
  fun w => match m w with
           | (Ok a, w') => k a w'
           | (Raise e, w') => (Raise e, w')
           end.

Definition raise {A} (e : pyexn) : M A := fun w => (Raise e, w).

(** [try: body except Exception as e: handler(e)] *)
Definition try_except {A} (body : M A) (handler : pyexn -> M A) : M A :=
  fun w => match body w with
           | (Ok a, w') => (Ok a, w')
           | (Raise e, w') => handler e w'
           end.

Declare Scope py_scope.
Delimit Scope py_scope with py.
Notation "x <- c1 ;; c2" := (bind c1 (fun x => c2))
  (at level 100, c1 at next level, right associativity) : py_scope.
Notation "c1 ;;; c2" := (bind c1 (fun _ => c2))
  (at level 100, right associativity) : py_scope.

(** [client.app.bsky.actor.search_actors(params)] *)
Definition search_actors (p : search_params) : M search_response :=
  fun w => let r := remote_search (remote w) (trace w) p in
           (r, emit (EvSearch p r) w).

(** [client.follow(did)] *)
Definition client_follow (target : pyval) : M follow_response :=
  fun w => let r := remote_follow (remote w) (trace w) target in
           (r, emit (EvFollow target r) w).

(** [datetime.now().isoformat()] *)
Definition now_isoformat : M string :=
  fun w => let t := remote_clock (remote w) (trace w) in
           (Ok t, emit (EvNow t) w).

(** [time.sleep(secs)]: a negative argument raises [ValueError]. *)
Definition time_sleep (secs : Z) : M unit :=
  fun w => if secs <? 0
           then (Raise (mkExn "ValueError" "sleep length must be non-negative"), w)
           else (Ok tt, emit (EvSleep secs) w).

(** The follow requests of a trace, in the order they were issued. *)
Definition follow_calls (t : list event) : list pyval :=
  omap (fun e => match e with EvFollow d _ => Some d | _ => None end) t.

(** The search requests of a trace with their answers, in order. *)
Definition search_calls (t : list event) : list (search_params * result search_response) :=
  omap (fun e => match e with EvSearch p r => Some (p, r) | _ => None end) t.

Inductive control : Type := Continue | Break.

(** [d[k]]: raises [KeyError] when the key is absent. *)
Definition dict_getitem (d : gmap string pyval) (k : string) : M pyval :=
  match d !! k with
  | Some v => ret v
  | None => raise (mkExn "KeyError" k)
  end.

(** [sub in v] for a string literal [sub]: substring test on a string,
    membership on a list, key test on a dict, [TypeError] otherwise. *)
Definition py_str_in (sub : string) (v : pyval) : M bool :=
  match v with
  | VStr s => ret (contains sub s)
  | VList l =>
      ret (existsb (fun x => match x with VStr s => String.eqb s sub | _ => false end) l)
  | VDict d => ret (existsb (fun kv => String.eqb (fst kv) sub) d)
  | _ => raise (mkExn "TypeError" "argument is not iterable")
  end.

(** ** The scraper *)

Module BlueskyScraper.

(** The record built for every actor (lines 59-69). *)
Record Account := mkAccount {
  did : string;
  handle : string;
  displayName : pyval;
  description : pyval;
  avatar : pyval;
  followersCount : pyval;
  profileUrl : string;
  keyword : string;
  scrapedAt : string
}.

(** The instance attributes of [BlueskyScraper]; the client is the world. *)
Record t := mk {
  max_pages : Z;
  delay : Z;
  seen_dids : gset string
}.

(** [__init__] *)
Definition init (max_pages_per_keyword delay_seconds : Z) : t :=
  mk max_pages_per_keyword delay_seconds ∅.

(** [getattr(obj, name, dflt)] on an attribute that may be absent *)
Definition getattr_default (attr : option pyval) (dflt : pyval) : pyval :=
  default dflt attr.

(** [if cursor:] on an optional string *)
Definition cursor_truthy (cursor : option string) : bool :=
  match cursor with
  | Some c => negb (String.eqb c EmptyString)
  | None => false
  end.

(** [response.actors if hasattr(response, 'actors') else []] *)
Definition page_actors (response : search_response) : list Actor :=
  default [] (resp_actors response).

(** [params = {'q': keyword, 'limit': 100}], with the cursor added when
    it is truthy (lines 44-49). *)
Definition search_params_of (kw : string) (cursor : option string) : search_params :=
  mkParams kw 100 (if cursor_truthy cursor then cursor else None).

(** The dict literal of lines 59-69, given the clock reading. *)
Definition account_of_actor (kw : string) (actor : Actor) (ts : string) : Account :=
  {| did := actor_did actor;
     handle := actor_handle actor;
     displayName := getattr_default (actor_display_name actor) (VStr "N/A");
     description := getattr_default (actor_description actor) (VStr "N/A");
     avatar := getattr_default (actor_avatar actor) (VStr EmptyString);
     followersCount := getattr_default (actor_followers_count actor) (VInt 0);
     profileUrl := String.append "https://bsky.app/profile/" (actor_handle actor);
     keyword := kw;
     scrapedAt := ts |}.

Definition build_account (kw : string) (actor : Actor) : M Account :=
  (ts <- now_isoformat ;;
   ret (account_of_actor kw actor ts))%py.

(** [for actor in actors: ... all_accounts.append(account)] *)
Fixpoint append_accounts (kw : string) (actors : list Actor)
    (all_accounts : list Account) : M (list Account) :=
  match actors with
  | [] => ret all_accounts
  | actor :: rest =>
      (account <- build_account kw actor ;;
       append_accounts kw rest (all_accounts ++ [account]))%py
  end.

(** The local variables of [scrape_keyword]. *)
Record locals := mkLocals {
  all_accounts : list Account;
  cursor : option string;
  page : Z
}.

(** One pass through the body of the [while] loop (lines 43-85).  The
    [except] clause breaks with the locals as they are when the
    exception is raised: untouched when the search raises, updated when
    [time.sleep] raises. *)
Definition scrape_page (self : t) (kw : string) (st : locals) : M (locals * control) :=
  try_except
    (response <- search_actors (search_params_of kw (cursor st)) ;;
     let actors := page_actors response in
     match actors with
     | [] => ret (st, Break)
     | _ =>
         accounts <- append_accounts kw actors (all_accounts st) ;;
         let page' := page st + 1 in
         let cursor' := resp_cursor response in
         let st' := mkLocals accounts cursor' page' in
         if negb (cursor_truthy cursor') then ret (st', Break)
         else if (page' <? max_pages self) && cursor_truthy cursor'
              then try_except (time_sleep (delay self) ;;; ret (st', Continue))
                              (fun _ => ret (st', Break))
              else ret (st', Continue)
     end)%py
    (fun _ => ret (st, Break)).

(** [while page < self.max_pages: ...]; every pass that does not break
    adds one to [page], so [max_pages - page] passes are enough. *)
Fixpoint scrape_loop (self : t) (kw : string) (fuel : nat) (st : locals) : M locals :=
  match fuel with
  | O => ret st
  | S fuel' =>
      if page st <? max_pages self then
        (r <- scrape_page self kw st ;;
         match r with
         | (st', Break) => ret st'
         | (st', Continue) => scrape_loop self kw fuel' st'
         end)%py
      else ret st
  end.

Definition scrape_keyword (self : t) (kw : string) : M (list Account) :=
  (st <- scrape_loop self kw (Z.to_nat (max_pages self)) (mkLocals [] None 0) ;;
   ret (all_accounts st))%py.

(** [for i, keyword in enumerate(keywords, 1): ...] with [total] the
    length of the whole keyword list. *)
Fixpoint keywords_loop (self : t) (total i : Z) (keywords : list string)
    (acc : list Account) : M (list Account) :=
  match keywords with
  | [] => ret acc
  | kw :: rest =>
      (accounts <- scrape_keyword self kw ;;
       let acc' := acc ++ accounts in
       (if i <? total then time_sleep (delay self) else ret tt) ;;;
       keywords_loop self total (i + 1) rest acc')%py
  end.

Definition scrape_multiple_keywords (self : t) (keywords : list string) : M (list Account) :=
  keywords_loop self (Z.of_nat (length keywords)) 1 keywords [].

(** [for account in accounts: ...] of [deduplicate] *)
Fixpoint dedup_loop (seen : gset string) (unique_accounts accounts : list Account)
    : list Account * gset string :=
  match accounts with
  | [] => (unique_accounts, seen)
  | account :: rest =>
      if decide (did account ∈ seen)
      then dedup_loop seen unique_accounts rest
      else dedup_loop (seen ∪ {[did account]}) (unique_accounts ++ [account]) rest
  end.

(** [deduplicate(accounts, seen_dids)]: [None] is the default argument;
    an empty list is falsy and skips the update like [None] does.  The
    method mutates [self.seen_dids], so the scraper is returned too. *)
Definition deduplicate (self : t) (accounts : list Account)
    (seen : option (list string)) : list Account * t :=
  let seen0 :=
    match seen with
    | Some (d :: ds) => seen_dids self ∪ list_to_set (d :: ds)
    | _ => seen_dids self
    end in
  let '(unique_accounts, seen1) := dedup_loop seen0 [] accounts in
  (unique_accounts, mk (max_pages self) (delay self) seen1).

End BlueskyScraper.

(** ** The follower *)

Module BlueskyFollower.

(** The instance attributes of [BlueskyFollower] that the methods read;
    the logged-in client is the world. *)
Record t := mk {
  handle : string;
  delay : Z
}.

Definition opt_to_py (o : option pyval) : pyval := default VNone o.

(** [follow_user(did, handle)] (lines 144-179). *)
Definition follow_user (did handle : pyval) : M (gmap string pyval) :=
  try_except
    (result <- client_follow did ;;
     ts <- now_isoformat ;;
     ret (list_to_map
            [("did", did); ("handle", handle); ("success", VBool true);
             ("uri", opt_to_py (resp_uri result)); ("timestamp", VStr ts)]))%py
    (fun e =>
       let error_msg := exn_str e in
       if contains "already following" (lower error_msg) then
         (ts <- now_isoformat ;;
          ret (list_to_map
                 [("did", did); ("handle", handle); ("success", VBool false);
                  ("error", VStr "Already following"); ("timestamp", VStr ts)]))%py
       else if contains "rate limit" (lower error_msg) then
         (ts <- now_isoformat ;;
          ret (list_to_map
                 [("did", did); ("handle", handle); ("success", VBool false);
                  ("error", VStr "Rate limited"); ("timestamp", VStr ts)]))%py
       else
         (ts <- now_isoformat ;;
          ret (list_to_map
                 [("did", did); ("handle", handle); ("success", VBool false);
                  ("error", VStr error_msg); ("timestamp", VStr ts)]))%py).

(** The local variables of [follow_bulk] that the loop updates. *)
Record locals := mkLocals {
  results : list (gmap string pyval);
  successful : Z;
  failed : Z;
  already_following : Z;
  rate_limited : Z
}.

(** [account.get('did') or account.get('DID')] (line 195) *)
Definition account_did (account : gmap string pyval) : pyval :=
  py_or (dict_get account "did") (dict_get account "DID").

(** [account.get('handle') or account.get('Handle')] (line 196) *)
Definition account_handle (account : gmap string pyval) : pyval :=
  py_or (dict_get account "handle") (dict_get account "Handle").

(** The record appended for an account without identifier (lines 200-205). *)
Definition no_did_result (handle : pyval) : gmap string pyval :=
  list_to_map
    [("did", VNone); ("handle", handle); ("success", VBool false);
     ("error", VStr "No DID provided")].

(** Lines 214-228: the counter that goes up for [result], and whether the
    loop breaks. *)
Definition count_result (st : locals) (result : gmap string pyval) : M (locals * control) :=
  (success <- dict_getitem result "success" ;;
   if truthy success then
     ret (mkLocals (results st) (successful st + 1) (failed st)
                   (already_following st) (rate_limited st), Continue)
   else
     let error := dict_get_default result "error" (VStr "Unknown error") in
     is_already <- py_str_in "Already following" error ;;
     if (is_already : bool) then
       ret (mkLocals (results st) (successful st) (failed st)
                     (already_following st + 1) (rate_limited st), Continue)
     else
       is_limited <- py_str_in "Rate limited" error ;;
       if (is_limited : bool) then
         ret (mkLocals (results st) (successful st) (failed st)
                       (already_following st) (rate_limited st + 1), Break)
       else
         ret (mkLocals (results st) (successful st) (failed st + 1)
                       (already_following st) (rate_limited st), Continue))%py.

(** [for i, account in enumerate(accounts_to_process, 1): ...]
    (lines 194-231). *)
Fixpoint follow_loop (self : t) (total i : Z) (accounts : list (gmap string pyval))
    (st : locals) : M locals :=
  match accounts with
  | [] => ret st
  | account :: rest =>
      let did := account_did account in
      let handle := account_handle account in
      if negb (truthy did) then
        follow_loop self total (i + 1) rest
          (mkLocals (results st ++ [no_did_result handle]) (successful st)
                    (failed st + 1) (already_following st) (rate_limited st))
      else
        (result <- follow_user did handle ;;
         let st1 := mkLocals (results st ++ [result]) (successful st) (failed st)
                             (already_following st) (rate_limited st) in
         r <- count_result st1 result ;;
         match r with
         | (st2, Break) => ret st2
         | (st2, Continue) =>
             (if i <? total
              then (success <- dict_getitem result "success" ;;
                    if truthy success then time_sleep (delay self) else ret tt)
              else ret tt) ;;;
             follow_loop self total (i + 1) rest st2
         end)%py
  end.

Record FollowSummary := mkSummary {
  total_attempted : Z;
  sum_successful : Z;
  sum_already_following : Z;
  sum_failed : Z;
  sum_rate_limited : Z;
  rate_limited_stopped : bool
}.

(** The dict returned by [follow_bulk]. *)
Record BulkResult := mkBulk {
  bulk_success : bool;
  bulk_results : list (gmap string pyval);
  summary : FollowSummary
}.

(** [accounts[:max_follows] if max_follows else accounts]: [None] and [0]
    are both falsy. *)
Definition accounts_to_process (accounts : list (gmap string pyval))
    (max_follows : option Z) : list (gmap string pyval) :=
  match max_follows with
  | Some n => if negb (n =? 0) then py_slice_to accounts n else accounts
  | None => accounts
  end.

(** [follow_bulk(accounts, max_follows)] (lines 181-246). *)
Definition follow_bulk (self : t) (accounts : list (gmap string pyval))
    (max_follows : option Z) : M BulkResult :=
  let to_process := accounts_to_process accounts max_follows in
  let total := Z.of_nat (length to_process) in
  (st <- follow_loop self total 1 to_process (mkLocals [] 0 0 0 0) ;;
   ret (mkBulk true (results st)
          (mkSummary (Z.of_nat (length (results st))) (successful st)
             (already_following st) (failed st) (rate_limited st)
             (0 <? rate_limited st))))%py.

End BlueskyFollower.

(** ** Specification-level definitions *)

(** What the specification says [deduplicate] keeps: the accounts of [X],
    in the order of [X], whose identifier is neither in the seen-set [P]
    nor in the supplied list [S] nor carried by an earlier element of [X]. *)
Definition first_unseen (P : gset string) (S : list string)
    (X : list BlueskyScraper.Account) : list BlueskyScraper.Account :=
  snd <$> filter
    (fun ia : nat * BlueskyScraper.Account =>
       BlueskyScraper.did (snd ia) ∉ P ∧ BlueskyScraper.did (snd ia) ∉ S ∧
       BlueskyScraper.did (snd ia) ∉ (BlueskyScraper.did <$> take (fst ia) X))
    (imap pair X).

(** The accounts [dedup_loop] keeps, without the accumulator. *)
Fixpoint kept (seen : gset string) (accounts : list BlueskyScraper.Account)
    : list BlueskyScraper.Account :=
  match accounts with
  | [] => []
  | a :: rest =>
      if decide (BlueskyScraper.did a ∈ seen) then kept seen rest
      else a :: kept (seen ∪ {[BlueskyScraper.did a]}) rest
  end.

(** The list of prior identifiers that [deduplicate] unions in. *)
Definition supplied (seen : option (list string)) : list string := default [] seen.

(** ** Sample data *)

(** The account [scrape_keyword] builds for an actor with every optional
    attribute absent. *)
Definition sample_account (d h : string) : BlueskyScraper.Account :=
  BlueskyScraper.mkAccount d h (VStr "N/A") (VStr "N/A") (VStr EmptyString) (VInt 0)
    (String.append "https://bsky.app/profile/" h) "ai" "2024-05-01T10:00:00".

(** ** The follow protocol, as the specification words it *)

(** The reason recorded for a failed follow call whose message is [msg]. *)
Definition error_reason (msg : string) : string :=
  if contains "already following" (lower msg) then "Already following"
  else if contains "rate limit" (lower msg) then "Rate limited"
  else msg.

(** The four outcomes of the per-batch state machine. *)
Inductive outcome : Type := Success | AlreadyFollowing | RateLimited | Failed.

Global Instance outcome_eq_dec : EqDecision outcome.
Proof. solve_decision. Defined.

(** The outcome a result record stands for: a success, or a failure told
    apart by its recorded reason. *)
Definition outcome_of (r : gmap string pyval) : outcome :=
  match r !! "success" with
  | Some (VBool true) => Success
  | _ =>
      match r !! "error" with
      | Some (VStr e) =>
          if String.eqb e "Already following" then AlreadyFollowing
          else if String.eqb e "Rate limited" then RateLimited
          else Failed
      | _ => Failed
      end
  end.

(** How many records of [rs] stand for outcome [o]. *)
Definition count_outcome (o : outcome) (rs : list (gmap string pyval)) : Z :=
  Z.of_nat (length (filter (fun r => outcome_of r = o) rs)).

(** [r] is a record for an attempt on [account]: it carries the identifier
    the account was followed under, or [None] when it has none, and the
    account's handle. *)
Definition record_for (account r : gmap string pyval) : Prop :=
  r !! "handle" = Some (BlueskyFollower.account_handle account) ∧
  r !! "did" = Some (if truthy (BlueskyFollower.account_did account)
                     then BlueskyFollower.account_did account else VNone).

(** The batch protocol: accounts are taken in order; an account without
    identifier gets the "No DID provided" record and no remote call; any
    other account gets one follow call and one record; the first
    rate-limited record ends the batch.  [bulk_run accounts rs calls]
    relates the accounts to the records written and the follow calls made. *)
Inductive bulk_run :
    list (gmap string pyval) -> list (gmap string pyval) -> list pyval -> Prop :=
| run_completed : bulk_run [] [] []
| run_no_did account rest rs calls :
    truthy (BlueskyFollower.account_did account) = false ->
    bulk_run rest rs calls ->
    bulk_run (account :: rest)
      (BlueskyFollower.no_did_result (BlueskyFollower.account_handle account) :: rs) calls
| run_stopped account rest r :
    truthy (BlueskyFollower.account_did account) = true ->
    record_for account r ->
    is_Some (r !! "timestamp") ->
    outcome_of r = RateLimited ->
    bulk_run (account :: rest) [r] [BlueskyFollower.account_did account]
| run_next account rest r rs calls :
    truthy (BlueskyFollower.account_did account) = true ->
    record_for account r ->
    is_Some (r !! "timestamp") ->
    outcome_of r <> RateLimited ->
    bulk_run rest rs calls ->
    bulk_run (account :: rest) (r :: rs) (BlueskyFollower.account_did account :: calls).

(** The counter that goes up for a record standing for outcome [o]. *)
Definition bump (o : outcome) (st : BlueskyFollower.locals) : BlueskyFollower.locals :=
  let '(BlueskyFollower.mkLocals rs s f a r) := st in
  match o with
  | Success => BlueskyFollower.mkLocals rs (s + 1) f a r
  | AlreadyFollowing => BlueskyFollower.mkLocals rs s f (a + 1) r
  | RateLimited => BlueskyFollower.mkLocals rs s f a (r + 1)
  | Failed => BlueskyFollower.mkLocals rs s (f + 1) a r
  end.

(** An account record as a caller sends it. *)
Definition sample_target (d h : string) : gmap string pyval :=
  list_to_map [("did", VStr d); ("handle", VStr h)].

Definition is_target (d : string) (v : pyval) : bool :=
  match v with VStr x => String.eqb x d | _ => false end.

(** A remote service that answers every follow with a relationship URI,
    except for [did:plc:b], which it rate-limits, and that has no search
    results. *)
Definition limiting_remote : Remote :=
  mkRemote
    (fun _ _ => Ok (mkResponse (Some []) None))
    (fun _ target =>
       if is_target "did:plc:b" target
       then Raise (mkExn "Exception" "Rate Limit Exceeded")
       else Ok (mkFollowResponse (Some (VStr "at://did:plc:me/app.bsky.graph.follow/1"))))
    (fun _ => "2024-05-01T10:00:00").

Definition limiting_world : World := mkWorld limiting_remote [].

(** Appending a record and counting it, as one pass of the loop does. *)
Definition record_result (st : BlueskyFollower.locals) (r : gmap string pyval)
    : BlueskyFollower.locals :=
  bump (outcome_of r)
    (BlueskyFollower.mkLocals (BlueskyFollower.results st ++ [r])
       (BlueskyFollower.successful st) (BlueskyFollower.failed st)
       (BlueskyFollower.already_following st) (BlueskyFollower.rate_limited st)).

(** The follow call an account gives rise to, if any. *)
Definition target_of (account : gmap string pyval) : option pyval :=
  if truthy (BlueskyFollower.account_did account)
  then Some (BlueskyFollower.account_did account) else None.

(** The world after the further interactions [evs]. *)
Definition extend (w : World) (evs : list event) : World :=
  mkWorld (remote w) (trace w ++ evs).

(** The summary derived from a list of records. *)
Definition summary_of (rs : list (gmap string pyval)) : BlueskyFollower.FollowSummary :=
  BlueskyFollower.mkSummary (Z.of_nat (length rs))
    (count_outcome Success rs) (count_outcome AlreadyFollowing rs)
    (count_outcome Failed rs) (count_outcome RateLimited rs)
    (0 <? count_outcome RateLimited rs).

(** A follower logged in as [me.bsky.social] with the default delay. *)
Definition sample_follower : BlueskyFollower.t :=
  BlueskyFollower.mk "me.bsky.social" 5.

(** Three accounts; the second is the one [limiting_remote] rate-limits. *)
Definition sample_batch : list (gmap string pyval) :=
  [sample_target "did:plc:a" "a.bsky.social";
   sample_target "did:plc:b" "b.bsky.social";
   sample_target "did:plc:c" "c.bsky.social"].

(** ** The pagination protocol *)

(** [account] is the record built for [actor] under keyword [kw], at some
    clock reading. *)
Definition built_from (kw : string) (actor : Actor) (account : BlueskyScraper.Account) : Prop :=
  ∃ ts, account = BlueskyScraper.account_of_actor kw actor ts.

(** The interactions of one keyword's pagination, from page counter [page]
    and cursor [cursor] on, and the pages of actors it collects: nothing
    once the cap is reached; otherwise one search request, whose failure,
    empty page or missing cursor ends the pagination, followed by one clock
    reading per actor, the delay when another page may be requested, and
    the rest of the pagination. *)
Inductive paging (self : BlueskyScraper.t) (kw : string) :
    Z -> option string -> list event -> list (list Actor) -> Prop :=
| paging_cap page cursor :
    BlueskyScraper.max_pages self <= page ->
    paging self kw page cursor [] []
| paging_raise page cursor e :
    page < BlueskyScraper.max_pages self ->
    paging self kw page cursor
      [EvSearch (BlueskyScraper.search_params_of kw cursor) (Raise e)] []
| paging_empty page cursor resp :
    page < BlueskyScraper.max_pages self ->
    BlueskyScraper.page_actors resp = [] ->
    paging self kw page cursor
      [EvSearch (BlueskyScraper.search_params_of kw cursor) (Ok resp)] []
| paging_end page cursor resp tss :
    page < BlueskyScraper.max_pages self ->
    BlueskyScraper.page_actors resp <> [] ->
    length tss = length (BlueskyScraper.page_actors resp) ->
    BlueskyScraper.cursor_truthy (resp_cursor resp) = false ->
    paging self kw page cursor
      (EvSearch (BlueskyScraper.search_params_of kw cursor) (Ok resp) :: (EvNow <$> tss))
      [BlueskyScraper.page_actors resp]
| paging_sleep_raise page cursor resp tss :
    page < BlueskyScraper.max_pages self ->
    BlueskyScraper.page_actors resp <> [] ->
    length tss = length (BlueskyScraper.page_actors resp) ->
    BlueskyScraper.cursor_truthy (resp_cursor resp) = true ->
    page + 1 < BlueskyScraper.max_pages self ->
    BlueskyScraper.delay self < 0 ->
    paging self kw page cursor
      (EvSearch (BlueskyScraper.search_params_of kw cursor) (Ok resp) :: (EvNow <$> tss))
      [BlueskyScraper.page_actors resp]
| paging_next page cursor resp tss pause rest pages :
    page < BlueskyScraper.max_pages self ->
    BlueskyScraper.page_actors resp <> [] ->
    length tss = length (BlueskyScraper.page_actors resp) ->
    BlueskyScraper.cursor_truthy (resp_cursor resp) = true ->
    (page + 1 < BlueskyScraper.max_pages self ->
     0 <= BlueskyScraper.delay self) ->
    pause = (if page + 1 <? BlueskyScraper.max_pages self
             then [EvSleep (BlueskyScraper.delay self)] else []) ->
    paging self kw (page + 1) (resp_cursor resp) rest pages ->
    paging self kw page cursor
      (EvSearch (BlueskyScraper.search_params_of kw cursor) (Ok resp)
         :: (EvNow <$> tss) ++ pause ++ rest)
      (BlueskyScraper.page_actors resp :: pages).


(** The keywords of the first-page requests of a trace (those sent without
    cursor), in order. *)
Definition first_requests (evs : list event) : list string :=
  omap (fun ev =>
          match ev with
          | EvSearch p _ =>
              match param_cursor p with
              | None => Some (param_q p)
              | Some _ => None
              end
          | _ => None
          end) evs.



Definition sample_actor (d h : string) : Actor :=
  mkActor d h None None None None.

(** A search service with two pages for every keyword: the request
    without cursor gets two actors and the cursor "p2", the next request
    gets one actor and no cursor. *)
Definition two_page_remote : Remote :=
  mkRemote
    (fun _ p =>
       match param_cursor p with
       | None =>
           Ok (mkResponse
                 (Some [sample_actor "did:plc:a" "a.bsky.social";
                        sample_actor "did:plc:b" "b.bsky.social"])
                 (Some "p2"))
       | Some _ =>
           Ok (mkResponse (Some [sample_actor "did:plc:c" "c.bsky.social"]) None)
       end)
    (fun _ _ => Raise (mkExn "Exception" "not logged in"))
    (fun _ => "2024-05-01T10:00:00").

Definition two_page_world : World := mkWorld two_page_remote [].

(** ** Login and the API endpoints *)

Module Api.

(** The answer of the service to [client.login(handle, app_password)],
    given the interactions so far.  The session a login opens lives in the
    remote service; a login is not one of the traced interactions. *)
Definition login_oracle : Type := list event -> string -> string -> result unit.

(** [BlueskyFollower.login] (lines 135-142): the error of a failed login
    is logged and raised again. *)
Definition login (auth : login_oracle) (handle app_password : string) : M unit :=
  try_except (fun w => (auth (trace w) handle app_password, w))
             (fun e => raise e).

(** [BlueskyFollower.__init__] (lines 129-133). *)
Definition new_follower (auth : login_oracle) (handle app_password : string)
    (delay_seconds : Z) : M BlueskyFollower.t :=
  (login auth handle app_password ;;;
   ret (BlueskyFollower.mk handle delay_seconds))%py.

(** What an endpoint answers: its body, or the [HTTPException] it raises. *)
Inductive http_result (A : Type) : Type :=
| Http200 (body : A)
| HttpError (status_code : Z) (detail : string).
Arguments Http200 {A} body.
Arguments HttpError {A} status_code detail.

(** [try: ... except Exception as e: raise HTTPException(status_code=500,
    detail=str(e))] around the body of an endpoint. *)
Definition endpoint {A} (body : M A) : World -> http_result A * World :=
  fun w => match body w with
           | (Ok a, w') => (Http200 a, w')
           | (Raise e, w') => (HttpError 500 (exn_str e), w')
           end.

Record ScrapeRequest := mkScrapeRequest {
  keywords : list string;
  max_pages : Z;
  delay : Z;
  seen_dids : list string
}.

(** The dict the scrape endpoint returns (lines 314-321). *)
Record ScrapeResponse := mkScrapeResponse {
  success : bool;
  total_scraped : Z;
  unique_accounts : Z;
  duplicates_removed : Z;
  keywords_processed : Z;
  accounts : list BlueskyScraper.Account
}.

(** [POST /scrape] (lines 290-325). *)
Definition scrape (request : ScrapeRequest) : World -> http_result ScrapeResponse * World :=
  endpoint
    (let scraper := BlueskyScraper.init (max_pages request) (delay request) in
     scraped <- BlueskyScraper.scrape_multiple_keywords scraper (keywords request) ;;
     let '(unique, _) :=
       BlueskyScraper.deduplicate scraper scraped (Some (seen_dids request)) in
     ret (mkScrapeResponse true
            (Z.of_nat (length scraped))
            (Z.of_nat (length unique))
            (Z.of_nat (length scraped) - Z.of_nat (length unique))
            (Z.of_nat (length (keywords request)))
            unique))%py.

Record FollowRequest := mkFollowRequest {
  req_handle : string;
  req_app_password : string;
  req_accounts : list (gmap string pyval);
  req_delay : Z;
  req_max_follows : option Z
}.

(** [POST /follow] (lines 327-361). *)
Definition follow (auth : login_oracle) (request : FollowRequest)
    : World -> http_result BlueskyFollower.BulkResult * World :=
  endpoint
    (follower <- new_follower auth (req_handle request) (req_app_password request)
                   (req_delay request) ;;
     BlueskyFollower.follow_bulk follower (req_accounts request)
       (req_max_follows request))%py.

End Api.

(** ** Further specification-level definitions *)

(** The sleeps of a trace, in order. *)
Definition sleep_calls (t : list event) : list Z :=
  omap (fun e => match e with EvSleep secs => Some secs | _ => None end) t.


(** The requests of one keyword walk the cursor: the first is sent for
    [kw] with limit 100 and the starting cursor; a request is followed by
    another only if it returned actors and a truthy cursor, and the next
    one is sent with that cursor. *)
Definition cursor_chained (kw : string) (cursor : option string)
    (calls : list (search_params * result search_response)) : Prop :=
  (∀ p r, calls !! 0%nat = Some (p, r) →
          p = BlueskyScraper.search_params_of kw cursor)
  ∧ ∀ j p1 r1 p2 r2,
      calls !! j = Some (p1, r1) → calls !! S j = Some (p2, r2) →
      ∃ resp,
        r1 = Ok resp
        ∧ BlueskyScraper.page_actors resp ≠ []
        ∧ BlueskyScraper.cursor_truthy (resp_cursor resp) = true
        ∧ p2 = mkParams kw 100 (resp_cursor resp).

(** The number of pauses due after the records [rs], the first of which
    is at [position] (counted from 1, as [enumerate(..., 1)] does) in a
    list of [total] accounts: one after each success that is not at the
    last position. *)
Fixpoint pauses_after (total position : Z) (rs : list (gmap string pyval)) : nat :=
  match rs with
  | [] => 0
  | r :: rest =>
      Nat.add (if (position <? total) && bool_decide (outcome_of r = Success)
               then 1%nat else 0%nat)
              (pauses_after total (position + 1) rest)
  end.

(** Every sleep of the trace comes directly after the clock reading that
    follows a follow call the service accepted. *)
Definition sleep_after_success (evs : list event) : Prop :=
  ∀ j secs, evs !! j = Some (EvSleep secs) →
    ∃ k target resp ts,
      j = S (S k)
      ∧ evs !! k = Some (EvFollow target (Ok resp))
      ∧ evs !! S k = Some (EvNow ts).

(** The keys of the three kinds of record [follow_bulk] writes. *)
Definition keys_followed : gset string :=
  {[ "did"; "handle"; "success"; "uri"; "timestamp" ]}.
Definition keys_failed : gset string :=
  {[ "did"; "handle"; "success"; "error"; "timestamp" ]}.
Definition keys_no_did : gset string :=
  {[ "did"; "handle"; "success"; "error" ]}.

(** A record has one of the three shapes, in line with its success flag:
    a success has a 'uri' and no 'error', a failure an 'error' string and
    no 'uri'. *)
Definition well_shaped (r : gmap string pyval) : Prop :=
  (r !! "success" = Some (VBool true) ∧ dom r = keys_followed)
  ∨ (r !! "success" = Some (VBool false)
     ∧ (∃ e, r !! "error" = Some (VStr e))
     ∧ (dom r = keys_failed ∨ dom r = keys_no_did)).

(** A login service that accepts one password only. *)
Definition strict_login : Api.login_oracle :=
  fun _ _ app_password =>
    if String.eqb app_password "abcd-efgh-ijkl-mnop" then Ok tt
    else Raise (mkExn "UnauthorizedError" "Invalid identifier or password").


(** * Verification *)

(** ** Substring search and lowering *)

Section Strings.
Local Open Scope string_scope.

Lemma append_nil_l s : EmptyString ++ s = s.
Proof. reflexivity. Qed.

Lemma append_cons a s t : String a s ++ t = String a (s ++ t).
Proof. reflexivity. Qed.

Lemma append_assoc s t u : (s ++ t) ++ u = s ++ t ++ u.
Proof.
  induction s as [|a s IH]; [done|]. rewrite !append_cons. by f_equal.
Qed.

Lemma prefix_nil_l s : String.prefix EmptyString s = true.
Proof. by destruct s. Qed.

Lemma prefix_cons a p b s :
  String.prefix (String a p) (String b s) = true ↔ a = b ∧ String.prefix p s = true.
Proof.
  simpl. destruct (ascii_dec a b) as [->|Hne]; [tauto|].
  split; [discriminate | intros [? _]; contradiction].
Qed.

Lemma prefix_refl s : String.prefix s s = true.
Proof. induction s as [|a s IH]; [done|]. by apply prefix_cons. Qed.

(** [String.prefix p s] holds exactly when [s] starts with [p]. *)
Lemma prefix_append p s : String.prefix p s = true ↔ ∃ post, s = p ++ post.
Proof.
  revert s. induction p as [|a p IH]; intros s.
  - rewrite prefix_nil_l. split; [intros _; by exists s | done].
  - destruct s as [|b s].
    + split; [by destruct p | intros [post Hpost]; discriminate].
    + rewrite prefix_cons, IH. split.
      * intros [-> [post ->]]. by exists post.
      * intros [post Hpost]. rewrite append_cons in Hpost.
        injection Hpost as -> ->. eauto.
Qed.

(** [contains sub s] holds exactly when [sub] occurs somewhere in [s]. *)
Lemma contains_append sub s :
  contains sub s = true ↔ ∃ pre post, s = pre ++ sub ++ post.
Proof.
  induction s as [|b s IH]; cbn [contains lower].
  - destruct (String.prefix sub EmptyString) eqn:Hp.
    + apply prefix_append in Hp as [post Hpost].
      split; [intros _; exists EmptyString, post; exact Hpost | done].
    + split; [done|]. intros (pre & post & Heq).
      destruct pre; [|discriminate]. rewrite append_nil_l in Heq.
      assert (String.prefix sub EmptyString = true) by (apply prefix_append; eauto).
      congruence.
  - destruct (String.prefix sub (String b s)) eqn:Hp.
    + apply prefix_append in Hp as [post Hpost].
      split; [intros _; exists EmptyString, post; exact Hpost | done].
    + rewrite IH. split.
      * intros (pre & post & ->). by exists (String b pre), post.
      * intros (pre & post & Heq).
        destruct pre as [|c pre];
          [rewrite append_nil_l in Heq | rewrite append_cons in Heq].
        -- assert (String.prefix sub (String b s) = true)
             by (apply prefix_append; eauto).
           congruence.
        -- injection Heq as -> ->. eauto.
Qed.

Lemma contains_refl s : contains s s = true.
Proof. destruct s; cbn [contains]; by rewrite prefix_refl. Qed.

Lemma prefix_trans p q s :
  String.prefix p q = true → String.prefix q s = true → String.prefix p s = true.
Proof.
  intros [x ->]%prefix_append [y ->]%prefix_append.
  apply prefix_append. exists (x ++ y).
  by rewrite append_assoc.
Qed.

(** Whatever contains [q] contains every prefix of [q]. *)
Lemma contains_prefix p q s :
  String.prefix p q = true → contains q s = true → contains p s = true.
Proof.
  intros Hpq. induction s as [|b s IH]; cbn [contains].
  - destruct (String.prefix q EmptyString) eqn:Hq; [|done]. intros _.
    by rewrite (prefix_trans p q EmptyString).
  - destruct (String.prefix q (String b s)) eqn:Hq.
    + intros _. by rewrite (prefix_trans p q (String b s)).
    + intros Hs. rewrite (IH Hs). by destruct (String.prefix p (String b s)).
Qed.

Lemma prefix_lower p s :
  String.prefix p s = true → String.prefix (lower p) (lower s) = true.
Proof.
  revert s. induction p as [|a p IH]; intros s;
    [intros _; cbn [lower]; apply prefix_nil_l|].
  destruct s as [|b s]; [done|].
  intros [-> Hp]%prefix_cons. cbn [lower]. apply prefix_cons. auto.
Qed.

(** Lowering both sides keeps an occurrence. *)
Lemma contains_lower sub s :
  contains sub s = true → contains (lower sub) (lower s) = true.
Proof.
  induction s as [|b s IH]; cbn [contains lower].
  - destruct (String.prefix sub EmptyString) eqn:Hp; [|done]. intros _.
    apply prefix_lower in Hp. cbn [lower] in Hp. by rewrite Hp.
  - destruct (String.prefix sub (String b s)) eqn:Hp.
    + intros _. apply prefix_lower in Hp. cbn [lower] in Hp. by rewrite Hp.
    + intros Hs. rewrite (IH Hs).
      by destruct (String.prefix (lower sub) (String (lower_ascii b) (lower s))).
Qed.

(** A message that [follow_user] passes on as a generic failure matches
    neither of the two reasons [follow_bulk] looks for. *)
Lemma generic_not_already msg :
  contains "already following" (lower msg) = false →
  contains "Already following" msg = false.
Proof.
  intros Hlow. destruct (contains "Already following" msg) eqn:Hc; [|done].
  apply contains_lower in Hc. change (lower "Already following")
    with "already following" in Hc. congruence.
Qed.

Lemma generic_not_limited msg :
  contains "rate limit" (lower msg) = false →
  contains "Rate limited" msg = false.
Proof.
  intros Hlow. destruct (contains "Rate limited" msg) eqn:Hc; [|done].
  apply contains_lower in Hc.
  change (lower "Rate limited") with "rate limited" in Hc.
  apply (contains_prefix "rate limit") in Hc; [congruence | reflexivity].
Qed.

End Strings.



(** ** Deduplication *)

Section Deduplicate.
Import BlueskyScraper.

Lemma dedup_loop_kept seen unique accounts :
  dedup_loop seen unique accounts =
    (unique ++ kept seen accounts, seen ∪ list_to_set (did <$> accounts)).
Proof.
  revert seen unique.
  induction accounts as [|a rest IH]; intros seen unique; simpl.
  - rewrite app_nil_r. f_equal. set_solver.
  - destruct (decide (did a ∈ seen)) as [Hin|Hnin]; rewrite IH.
    + f_equal. set_solver.
    + rewrite <- app_assoc. f_equal. set_solver.
Qed.

(** [kept] as a filter over positions: an element survives when its
    identifier is neither in [seen] nor earlier in the list. *)
Lemma kept_filter seen (pre accounts : list Account) :
  kept (seen ∪ list_to_set (did <$> pre)) accounts =
    snd <$> filter
      (fun ia : nat * Account =>
         did (snd ia) ∉ seen ∧ did (snd ia) ∉ (did <$> take (fst ia) (pre ++ accounts)))
      (imap (fun i a => (length pre + i, a)%nat) accounts).
Proof.
  revert pre.
  induction accounts as [|a rest IH]; intros pre; [done|].
  cbn [kept imap].
  assert (Htake : take (length pre + 0) (pre ++ a :: rest) = pre).
  { rewrite Nat.add_0_r. by rewrite take_app_length. }
  assert (Hrest :
    kept (seen ∪ list_to_set (did <$> pre) ∪ {[did a]}) rest =
    snd <$> filter
      (fun ia : nat * Account =>
         did (snd ia) ∉ seen ∧ did (snd ia) ∉ (did <$> take (fst ia) (pre ++ a :: rest)))
      (imap ((fun i a0 => (length pre + i, a0)%nat) ∘ S) rest)).
  { specialize (IH (pre ++ [a])).
    replace (seen ∪ list_to_set (did <$> pre) ∪ {[did a]})
      with (seen ∪ list_to_set (did <$> pre ++ [a])).
    2:{ rewrite fmap_app, list_to_set_app_L. simpl. set_solver. }
    rewrite IH. rewrite <- app_assoc. simpl.
    f_equal. f_equal. apply imap_ext. intros i x _. simpl.
    rewrite length_app. simpl. f_equal. lia. }
  destruct (decide (did a ∈ seen ∪ list_to_set (did <$> pre))) as [Hin|Hnin].
  - rewrite filter_cons_False.
    2:{ simpl. rewrite Htake. intros [H1 H2]. set_solver. }
    replace (seen ∪ list_to_set (did <$> pre))
      with (seen ∪ list_to_set (did <$> pre) ∪ {[did a]}) by set_solver.
    apply Hrest.
  - rewrite filter_cons_True.
    2:{ simpl. rewrite Htake. set_solver. }
    simpl. f_equal. apply Hrest.
Qed.

Lemma kept_first_unseen P S X :
  kept (P ∪ list_to_set S) X = first_unseen P S X.
Proof.
  pose proof (kept_filter (P ∪ list_to_set S) [] X) as H.
  simpl in H. rewrite union_empty_r_L in H. rewrite H.
  unfold first_unseen. f_equal.
  apply list_filter_iff. intros [i a]. simpl. set_solver.
Qed.

Lemma deduplicate_kept self X seen :
  deduplicate self X seen =
    (kept (seen_dids self ∪ list_to_set (supplied seen)) X,
     mk (max_pages self) (delay self)
        (seen_dids self ∪ list_to_set (supplied seen) ∪ list_to_set (did <$> X))).
Proof.
  unfold deduplicate.
  assert (Hs : match seen with
               | Some (d :: ds) => seen_dids self ∪ list_to_set (d :: ds)
               | _ => seen_dids self
               end = seen_dids self ∪ list_to_set (supplied seen)).
  { destruct seen as [[|d ds]|]; simpl; set_solver. }
  rewrite Hs, dedup_loop_kept. reflexivity.
Qed.

Lemma kept_not_seen seen X a : a ∈ kept seen X → did a ∉ seen.
Proof.
  revert seen. induction X as [|x rest IH]; intros seen; simpl.
  - by intros ?%elem_of_nil.
  - destruct (decide (did x ∈ seen)) as [Hin|Hnin]; [by apply IH|].
    intros [->|Hrest]%elem_of_cons; [done|].
    apply IH in Hrest. set_solver.
Qed.

Lemma kept_NoDup seen X : NoDup (did <$> kept seen X).
Proof.
  revert seen. induction X as [|x rest IH]; intros seen; simpl.
  - constructor.
  - destruct (decide (did x ∈ seen)) as [Hin|Hnin]; [by apply IH|].
    rewrite fmap_cons. constructor; [|by apply IH].
    intros (b & Hb & Hin)%list_elem_of_fmap.
    apply kept_not_seen in Hin. set_solver.
Qed.

Lemma kept_sublist seen X : kept seen X `sublist_of` X.
Proof.
  revert seen. induction X as [|x rest IH]; intros seen; simpl; [done|].
  destruct (decide (did x ∈ seen)).
  - by apply sublist_cons.
  - by apply sublist_skip.
Qed.

(** A list without repeated identifiers, none of them seen, is kept whole. *)
Lemma kept_all seen Y :
  NoDup (did <$> Y) → (∀ a, a ∈ Y → did a ∉ seen) → kept seen Y = Y.
Proof.
  revert seen. induction Y as [|y rest IH]; intros seen Hnd Hfresh; simpl; [done|].
  rewrite fmap_cons in Hnd. apply NoDup_cons in Hnd as [Hy Hnd].
  destruct (decide (did y ∈ seen)) as [Hin|Hnin].
  - exfalso. apply (Hfresh y); [left|done].
  - f_equal. apply IH; [done|]. intros a Ha.
    assert (did a ≠ did y).
    { intros Heq. apply Hy. rewrite <- Heq. by apply list_elem_of_fmap_2. }
    assert (did a ∉ seen) by (apply Hfresh; by right).
    set_solver.
Qed.

(** A list whose identifiers are all seen is dropped whole. *)
Lemma kept_none seen Y : (∀ a, a ∈ Y → did a ∈ seen) → kept seen Y = [].
Proof.
  induction Y as [|y rest IH]; intros Hseen; simpl; [done|].
  destruct (decide (did y ∈ seen)) as [Hin|Hnin].
  - apply IH. intros a Ha. apply Hseen. by right.
  - exfalso. apply Hnin, Hseen. left.
Qed.

Lemma first_unseen_sublist P S X : first_unseen P S X `sublist_of` X.
Proof. rewrite <- kept_first_unseen. apply kept_sublist. Qed.

(** C2: on a scraper whose seen-set is [P], [deduplicate(X, S)] returns,
    in the order of [X], exactly the accounts whose identifier is neither
    in [P] nor in [S] and that are the first of their identifier in [X]
    (the list [first_unseen P S X]); so the result is a subsequence of
    [X], no survivor has an identifier of [P] or [S], no identifier
    survives twice, and an omitted or empty [S] behaves like no prior
    identifiers. *)
Theorem deduplicate_first_unseen (self : t) (X : list Account) (S : list string) :
  let Y := fst (deduplicate self X (Some S)) in
  Y = first_unseen (seen_dids self) S X
  ∧ Y `sublist_of` X
  ∧ (∀ a, a ∈ Y → did a ∉ seen_dids self ∧ did a ∉ S)
  ∧ NoDup (did <$> Y)
  ∧ fst (deduplicate self X None) = first_unseen (seen_dids self) [] X.
Proof.
  cbv zeta. rewrite !deduplicate_kept. cbn [fst supplied default].
  split; [apply kept_first_unseen|].
  split; [apply kept_sublist|].
  split; [|split; [apply kept_NoDup | apply kept_first_unseen]].
  intros a Ha%kept_not_seen. set_solver.
Qed.

(** C5, as the claim states it, fails on one scraper: the first pass
    leaves the identifier of every kept account in the seen-set, so the
    second pass over its output on the same instance drops everything. *)
Lemma deduplicate_twice_same_scraper :
  let first := deduplicate (init 5 2) [sample_account "did:plc:a" "a.bsky.social"] None in
  fst first = [sample_account "did:plc:a" "a.bsky.social"]
  ∧ fst (deduplicate (snd first) (fst first) None) = []
  ∧ fst (deduplicate (snd first) (fst first) None) ≠ fst first.
Proof.
  cbv zeta. rewrite !deduplicate_kept. cbn [fst snd supplied default seen_dids init].
  assert (H1 : kept (∅ ∪ list_to_set []) [sample_account "did:plc:a" "a.bsky.social"]
               = [sample_account "did:plc:a" "a.bsky.social"]).
  { apply kept_all.
    - simpl. apply NoDup_singleton.
    - intros a _. set_solver. }
  rewrite H1.
  assert (H2 : kept (∅ ∪ list_to_set [] ∪
                       list_to_set (did <$> [sample_account "did:plc:a" "a.bsky.social"])
                       ∪ list_to_set [])
                 [sample_account "did:plc:a" "a.bsky.social"] = []).
  { apply kept_none. intros a ->%list_elem_of_singleton. simpl. set_solver. }
  rewrite H2. done.
Qed.

(** C5 (amended): the output [Y] of a pass is returned unchanged by a
    second pass on any scraper whose seen-set and supplied identifiers
    contain no identifier of [Y] - a fresh scraper, or one in the state
    the first pass started from; on the instance that made the first
    pass, whose seen-set now holds every kept identifier, the second
    pass returns the empty list. *)
Theorem deduplicate_idempotent_from_same_seen
    (self other : t) (X : list Account) (seen seen' : option (list string)) :
  let Y := fst (deduplicate self X seen) in
  (∀ a, a ∈ Y → did a ∉ seen_dids other ∧ did a ∉ supplied seen') →
  fst (deduplicate other Y seen') = Y
  ∧ fst (deduplicate (snd (deduplicate self X seen)) Y seen') = [].
Proof.
  cbv zeta. rewrite !deduplicate_kept. cbn [fst snd seen_dids].
  intros Hfresh. split.
  - apply kept_all; [apply kept_NoDup|].
    intros a Ha. specialize (Hfresh a Ha). set_solver.
  - apply kept_none. intros a Ha.
    assert (Hs := kept_sublist (seen_dids self ∪ list_to_set (supplied seen)) X).
    assert (a ∈ X) by (eapply elem_of_sublist; eauto).
    assert (did a ∈ did <$> X) by (by apply list_elem_of_fmap_2).
    set_solver.
Qed.

Lemma deduplicate_idempotent_from_same_seen_witness :
  let X := [sample_account "did:plc:a" "a.bsky.social";
            sample_account "did:plc:b" "b.bsky.social";
            sample_account "did:plc:a" "a.bsky.social"] in
  let Y := fst (deduplicate (init 5 2) X (Some ["did:plc:b"])) in
  fst (deduplicate (init 5 2) Y (Some ["did:plc:b"])) = Y
  ∧ fst (deduplicate (snd (deduplicate (init 5 2) X (Some ["did:plc:b"]))) Y
           (Some ["did:plc:b"])) = [].
Proof.
  cbv zeta.
  apply (deduplicate_idempotent_from_same_seen (init 5 2) (init 5 2)).
  intros a Ha.
  pose proof (deduplicate_kept (init 5 2)
    [sample_account "did:plc:a" "a.bsky.social";
     sample_account "did:plc:b" "b.bsky.social";
     sample_account "did:plc:a" "a.bsky.social"] (Some ["did:plc:b"])) as Hk.
  rewrite Hk in Ha. cbn [fst] in Ha.
  apply kept_not_seen in Ha. cbn [seen_dids init supplied default] in *.
  set_solver.
Defined.

End Deduplicate.

(** ** The follower *)

Section Follower.
Import BlueskyFollower.

Lemma error_reason_cases msg :
  error_reason msg = "Already following"
  ∨ error_reason msg = "Rate limited"
  ∨ (error_reason msg = msg
     ∧ contains "Already following" msg = false
     ∧ contains "Rate limited" msg = false).
Proof.
  unfold error_reason.
  destruct (contains "already following" (lower msg)) eqn:Ha; [by left|].
  destruct (contains "rate limit" (lower msg)) eqn:Hr; [right; by left|].
  right; right. split; [done|].
  split; [by apply generic_not_already | by apply generic_not_limited].
Qed.

(** One follow attempt: the call, the clock reading, and the record. *)
Lemma follow_user_run did handle w :
  let r := remote_follow (remote w) (trace w) did in
  ∃ rec ts,
    follow_user did handle w = (Ok rec, emit (EvNow ts) (emit (EvFollow did r) w))
    ∧ rec !! "did" = Some did
    ∧ rec !! "handle" = Some handle
    ∧ rec !! "timestamp" = Some (VStr ts)
    ∧ match r with
      | Ok resp =>
          rec !! "success" = Some (VBool true)
          ∧ rec !! "uri" = Some (opt_to_py (resp_uri resp))
          ∧ rec !! "error" = None
      | Raise e =>
          rec !! "success" = Some (VBool false)
          ∧ rec !! "error" = Some (VStr (error_reason (exn_str e)))
          ∧ rec !! "uri" = None
      end.
Proof.
  cbv zeta. unfold follow_user, try_except, bind, client_follow, error_reason.
  destruct (remote_follow (remote w) (trace w) did) as [resp|e] eqn:Hr.
  - eexists _, _. split; [reflexivity|]. repeat split; reflexivity.
  - destruct (contains "already following" (lower (exn_str e))).
    { eexists _, _. split; [reflexivity|]. repeat split; reflexivity. }
    destruct (contains "rate limit" (lower (exn_str e))).
    { eexists _, _. split; [reflexivity|]. repeat split; reflexivity. }
    eexists _, _. split; [reflexivity|]. repeat split; reflexivity.
Qed.

(** Counting a record written by [follow_user]: the counter of its
    outcome goes up, and the loop breaks exactly on a rate-limited one. *)
Lemma count_result_run st rec (b : bool) w :
  rec !! "success" = Some (VBool b) →
  (b = false → ∃ msg, rec !! "error" = Some (VStr (error_reason msg))) →
  count_result st rec w =
    (Ok (bump (outcome_of rec) st,
         if decide (outcome_of rec = RateLimited) then Break else Continue), w).
Proof.
  intros Hs He. unfold count_result, bind, dict_getitem, outcome_of.
  rewrite Hs. destruct st as [rs s f a r]. destruct b; [reflexivity|].
  destruct (He eq_refl) as [msg Hmsg]. unfold dict_get_default. rewrite Hmsg.
  cbn [default from_option].
  destruct (error_reason_cases msg) as [-> | [-> | (-> & Ha & Hr)]];
    [reflexivity | reflexivity |].
  cbn -[contains String.eqb]. rewrite Ha, Hr.
  assert (String.eqb msg "Already following" = false) as ->.
  { apply String.eqb_neq. intros ->. discriminate Ha. }
  assert (String.eqb msg "Rate limited" = false) as ->.
  { apply String.eqb_neq. intros ->. discriminate Hr. }
  reflexivity.
Qed.

Lemma time_sleep_run secs w :
  0 <= secs → time_sleep secs w = (Ok tt, emit (EvSleep secs) w).
Proof.
  intros H. unfold time_sleep. by destruct (Z.ltb_spec secs 0); [lia|].
Qed.

Lemma extend_nil w : extend w [] = w.
Proof. destruct w. unfold extend. simpl. by rewrite app_nil_r. Qed.

Lemma emit_extend e w : emit e w = extend w [e].
Proof. reflexivity. Qed.

Lemma extend_extend w evs1 evs2 :
  extend (extend w evs1) evs2 = extend w (evs1 ++ evs2).
Proof. unfold extend. simpl. by rewrite app_assoc. Qed.

Lemma follow_calls_app t1 t2 :
  follow_calls (t1 ++ t2) = follow_calls t1 ++ follow_calls t2.
Proof. unfold follow_calls. apply omap_app. Qed.

(** The pause after an attempt (line 230): at most one sleep, which
    raises only under a negative delay. *)
Lemma pause_run self total i rec (b : bool) w :
  rec !! "success" = Some (VBool b) →
  let pause :=
    (if i <? total
     then (success <- dict_getitem rec "success" ;;
           if truthy success then time_sleep (delay self) else ret tt)%py
     else ret tt) in
  (∃ evs, pause w = (Ok tt, extend w evs) ∧ follow_calls evs = [])
  ∨ (delay self < 0 ∧ ∃ e, pause w = (Raise e, w)).
Proof.
  intros Hs. cbv zeta. destruct (i <? total).
  - unfold bind, dict_getitem. rewrite Hs. cbn [ret truthy].
    destruct b.
    + unfold time_sleep. destruct (Z.ltb_spec (delay self) 0).
      * right. split; [done|]. by eexists.
      * left. by exists [EvSleep (delay self)].
    + left. exists []. by rewrite extend_nil.
  - left. exists []. by rewrite extend_nil.
Qed.

Lemma record_result_no_did st handle :
  record_result st (no_did_result handle) =
    mkLocals (results st ++ [no_did_result handle]) (successful st)
             (failed st + 1) (already_following st) (rate_limited st).
Proof. reflexivity. Qed.

(** One pass of the loop over an account without identifier: the
    "No DID provided" record is counted and the world is left alone. *)
Lemma follow_loop_skip self total i account rest st w :
  truthy (account_did account) = false →
  follow_loop self total i (account :: rest) st w =
    follow_loop self total (i + 1) rest
      (record_result st (no_did_result (account_handle account))) w.
Proof.
  intros Hdid. cbn [follow_loop]. rewrite Hdid. cbn [negb].
  by rewrite record_result_no_did.
Qed.

(** One pass of the loop over an account with an identifier: one follow
    call, one record; then the loop breaks on a rate-limited record and
    goes on, after the pause, on any other. *)
Lemma follow_loop_attempt self total i account rest st w :
  truthy (account_did account) = true →
  let r := remote_follow (remote w) (trace w) (account_did account) in
  ∃ rec ts,
    record_for account rec
    ∧ rec !! "timestamp" = Some (VStr ts)
    ∧ match r with
      | Ok resp => rec !! "success" = Some (VBool true)
      | Raise e => rec !! "success" = Some (VBool false)
                   ∧ rec !! "error" = Some (VStr (error_reason (exn_str e)))
      end
    ∧ let w1 := extend w [EvFollow (account_did account) r; EvNow ts] in
      if decide (outcome_of rec = RateLimited)
      then follow_loop self total i (account :: rest) st w
           = (Ok (record_result st rec), w1)
      else (∃ evs,
              follow_calls evs = []
              ∧ follow_loop self total i (account :: rest) st w
                = follow_loop self total (i + 1) rest (record_result st rec)
                    (extend w1 evs))
           ∨ (delay self < 0
              ∧ ∃ e, follow_loop self total i (account :: rest) st w
                     = (Raise e, w1)).
Proof.
  intros Hdid. cbv zeta.
  destruct (follow_user_run (account_did account) (account_handle account) w)
    as (rec & ts & Hrun & Hrd & Hrh & Hrt & Hres).
  exists rec, ts.
  assert (Hsucc : ∃ b : bool, rec !! "success" = Some (VBool b)
            ∧ (b = false → ∃ msg, rec !! "error" = Some (VStr (error_reason msg)))).
  { destruct (remote_follow (remote w) (trace w) (account_did account)) as [resp|e].
    - exists true. split; [tauto | discriminate].
    - exists false. split; [tauto|]. intros _. exists (exn_str e). tauto. }
  destruct Hsucc as (b & Hb & Herr).
  split; [unfold record_for; by rewrite Hdid|].
  split; [done|].
  split.
  { destruct (remote_follow (remote w) (trace w) (account_did account)); tauto. }
  assert (Hbody : follow_loop self total i (account :: rest) st w =
    match (if decide (outcome_of rec = RateLimited) then Break else Continue) with
    | Break =>
        (Ok (record_result st rec),
         extend w [EvFollow (account_did account)
                     (remote_follow (remote w) (trace w) (account_did account));
                   EvNow ts])
    | Continue =>
        ((if i <? total
          then (success <- dict_getitem rec "success" ;;
                if truthy success then time_sleep (delay self) else ret tt)
          else ret tt) ;;;
         follow_loop self total (i + 1) rest (record_result st rec))%py
          (extend w [EvFollow (account_did account)
                       (remote_follow (remote w) (trace w) (account_did account));
                     EvNow ts])
    end).
  { cbn [follow_loop]. rewrite Hdid. cbn [negb].
    unfold bind at 1. rewrite Hrun. rewrite !emit_extend, extend_extend.
    unfold bind at 1. erewrite count_result_run by eauto.
    change (bump (outcome_of rec) _) with (record_result st rec).
    by destruct (decide (outcome_of rec = RateLimited)). }
  rewrite Hbody.
  destruct (decide (outcome_of rec = RateLimited)) as [Hrl|Hrl]; [reflexivity|].
  unfold bind.
  destruct (pause_run self total i rec b
              (extend w [EvFollow (account_did account)
                  (remote_follow (remote w) (trace w) (account_did account));
               EvNow ts]) Hb)
    as [(evs & Hpause & Hcalls) | (Hneg & e & Hpause)];
    cbv zeta in Hpause; unfold bind in Hpause; rewrite Hpause.
  - left. by exists evs.
  - right. split; [done|]. by exists e.
Qed.

Lemma omap_target_skip account k rest :
  truthy (account_did account) = false →
  omap target_of (take (S k) (account :: rest)) = omap target_of (take k rest).
Proof. intros H. cbn. unfold target_of at 1. by rewrite H. Qed.

Lemma omap_target_attempt account k rest :
  truthy (account_did account) = true →
  omap target_of (take (S k) (account :: rest))
    = account_did account :: omap target_of (take k rest).
Proof. intros H. cbn. unfold target_of at 1. by rewrite H. Qed.

(** Every run of the loop follows the batch protocol: unless a negative
    delay makes [time.sleep] raise, it returns the records counted one by
    one, and records and follow calls are related to the accounts by
    [bulk_run]; in every case the follow calls made are those of the
    identifiers of a prefix of the accounts. *)
Lemma follow_loop_run self total accounts :
  ∀ i st w,
    (∃ rs evs,
        follow_loop self total i accounts st w =
          (Ok (foldl record_result st rs), extend w evs)
        ∧ bulk_run accounts rs (follow_calls evs))
    ∨ (delay self < 0
       ∧ ∃ e evs k,
           follow_loop self total i accounts st w = (Raise e, extend w evs)
           ∧ follow_calls evs = omap target_of (take k accounts)).
Proof.
  induction accounts as [|account rest IH]; intros i st w.
  - left. exists [], []. rewrite extend_nil. split; [reflexivity | constructor].
  - destruct (truthy (account_did account)) eqn:Hdid.
    + destruct (follow_loop_attempt self total i account rest st w Hdid)
        as (rec & ts & Hfor & Hts & _ & Hstep). cbv zeta in Hstep.
      destruct (decide (outcome_of rec = RateLimited)) as [Hrl|Hrl].
      * left. eexists [rec], _. split; [exact Hstep|].
        cbn. apply run_stopped; eauto.
      * destruct Hstep as [(evs_s & Hcalls & Hstep) | (Hneg & e & Hstep)].
        -- rewrite Hstep, extend_extend.
           destruct (IH (i + 1) (record_result st rec)
                       (extend w ([EvFollow (account_did account)
                                     (remote_follow (remote w) (trace w)
                                        (account_did account)); EvNow ts] ++ evs_s)))
             as [(rs & evs & Hloop & Hbulk) | (Hneg & e & evs & k & Hloop & Hk)];
             rewrite Hloop, extend_extend.
           ++ left. eexists (rec :: rs), _. split; [reflexivity|].
              rewrite !follow_calls_app, Hcalls. cbn.
              apply run_next; eauto.
           ++ right. split; [done|]. eexists e, _, (S k). split; [reflexivity|].
              rewrite !follow_calls_app, Hcalls, Hk.
              by rewrite omap_target_attempt.
        -- right. split; [done|]. eexists e, _, 1%nat. split; [exact Hstep|].
           by rewrite omap_target_attempt.
    + rewrite follow_loop_skip by done.
      destruct (IH (i + 1) (record_result st (no_did_result (account_handle account))) w)
        as [(rs & evs & Hloop & Hbulk) | (Hneg & e & evs & k & Hloop & Hk)];
        rewrite Hloop.
      * left. exists (no_did_result (account_handle account) :: rs), evs.
        split; [reflexivity|]. by apply run_no_did.
      * right. split; [done|]. exists e, evs, (S k). split; [reflexivity|].
        by rewrite omap_target_skip.
Qed.

Lemma count_outcome_nil o : count_outcome o [] = 0.
Proof. reflexivity. Qed.

Lemma count_outcome_cons o r rs :
  count_outcome o (r :: rs) =
    (if decide (outcome_of r = o) then 1 else 0) + count_outcome o rs.
Proof.
  unfold count_outcome. rewrite filter_cons.
  destruct (decide (outcome_of r = o)); cbn [length]; lia.
Qed.




(** Counting records one by one keeps every counter equal to its count. *)
Lemma foldl_record_result rs : ∀ st,
  foldl record_result st rs =
    mkLocals (results st ++ rs)
      (successful st + count_outcome Success rs)
      (failed st + count_outcome Failed rs)
      (already_following st + count_outcome AlreadyFollowing rs)
      (rate_limited st + count_outcome RateLimited rs).
Proof.
  induction rs as [|r rs IH]; intros [res s f a l].
  - cbn [foldl results successful failed already_following rate_limited].
    rewrite !count_outcome_nil, app_nil_r. f_equal; lia.
  - cbn [foldl]. rewrite IH. rewrite !count_outcome_cons.
    unfold record_result. cbn [results successful failed already_following rate_limited].
    destruct (outcome_of r); cbn;
      rewrite <- app_assoc; cbn;
      repeat (case_decide; try discriminate; try congruence);
      f_equal; lia.
Qed.

(** [follow_bulk] as a whole: unless a negative delay makes [time.sleep]
    raise, it returns the records with the summary derived from them, and
    the run follows the batch protocol on the accounts to process. *)
Lemma follow_bulk_run self accounts max_follows w :
  (∃ rs evs,
      follow_bulk self accounts max_follows w =
        (Ok (mkBulk true rs (summary_of rs)), extend w evs)
      ∧ bulk_run (accounts_to_process accounts max_follows) rs (follow_calls evs))
  ∨ (delay self < 0
     ∧ ∃ e evs k,
         follow_bulk self accounts max_follows w = (Raise e, extend w evs)
         ∧ follow_calls evs =
             omap target_of (take k (accounts_to_process accounts max_follows))).
Proof.
  unfold follow_bulk, bind.
  destruct (follow_loop_run self
              (Z.of_nat (length (accounts_to_process accounts max_follows)))
              (accounts_to_process accounts max_follows) 1 (mkLocals [] 0 0 0 0) w)
    as [(rs & evs & Hloop & Hbulk) | (Hneg & e & evs & k & Hloop & Hk)];
    rewrite Hloop.
  - left. exists rs, evs. split; [|done].
    rewrite foldl_record_result. cbn. reflexivity.
  - right. split; [done|]. by exists e, evs, k.
Qed.

(** With a delay that is not negative [follow_bulk] returns. *)
Lemma follow_bulk_returns self accounts max_follows w :
  0 <= delay self →
  ∃ rs evs,
    follow_bulk self accounts max_follows w =
      (Ok (mkBulk true rs (summary_of rs)), extend w evs)
    ∧ bulk_run (accounts_to_process accounts max_follows) rs (follow_calls evs).
Proof.
  intros Hd.
  destruct (follow_bulk_run self accounts max_follows w) as [H | [Hneg _]];
    [exact H | lia].
Qed.


(** *** Consequences of the batch protocol *)


Lemma outcome_no_did handle : outcome_of (no_did_result handle) = Failed.
Proof. reflexivity. Qed.








End Follower.

(** ** The follower: the claims *)

Section FollowerClaims.
Import BlueskyFollower.

Lemma outcome_success_iff r :
  outcome_of r = Success ↔ r !! "success" = Some (VBool true).
Proof.
  unfold outcome_of. split.
  - destruct (r !! "success") as [[| [|] | | | | |]|]; try done;
      destruct (r !! "error") as [[| | | |e| |]|]; try done;
      destruct (String.eqb e "Already following"); try done;
      destruct (String.eqb e "Rate limited"); done.
  - by intros ->.
Qed.


(** C4: [follow_user] never raises.  Whatever the remote follow call
    does, a record comes back as data, with the identifier, the handle
    and a timestamp; after a failed call its reason is chosen by
    substring search in the lowered message, "already following" first
    (so a message holding both patterns is "Already following"), then
    "rate limit", and otherwise the raw message. *)
Theorem follow_user_never_raises (did handle : pyval) (w : World) :
  let r := remote_follow (remote w) (trace w) did in
  ∃ rec ts,
    follow_user did handle w = (Ok rec, extend w [EvFollow did r; EvNow ts])
    ∧ rec !! "did" = Some did
    ∧ rec !! "handle" = Some handle
    ∧ rec !! "timestamp" = Some (VStr ts)
    ∧ match r with
      | Ok resp =>
          rec !! "success" = Some (VBool true)
          ∧ rec !! "uri" = Some (opt_to_py (resp_uri resp))
          ∧ rec !! "error" = None
      | Raise e =>
          let low := lower (exn_str e) in
          rec !! "success" = Some (VBool false)
          ∧ (contains "already following" low = true →
             rec !! "error" = Some (VStr "Already following"))
          ∧ (contains "already following" low = false →
             contains "rate limit" low = true →
             rec !! "error" = Some (VStr "Rate limited"))
          ∧ (contains "already following" low = false →
             contains "rate limit" low = false →
             rec !! "error" = Some (VStr (exn_str e)))
      end.
Proof.
  cbv zeta.
  destruct (follow_user_run did handle w) as (rec & ts & Hrun & Hd & Hh & Ht & Hres).
  exists rec, ts. rewrite Hrun, !emit_extend, extend_extend.
  split; [reflexivity|]. split; [done|]. split; [done|]. split; [done|].
  destruct (remote_follow (remote w) (trace w) did) as [resp|e]; [done|].
  destruct Hres as (Hs & He & _). unfold error_reason in He.
  split; [done|].
  split; [intros Ha; by rewrite Ha in He|].
  split; intros Ha Hr; by rewrite Ha, Hr in He.
Qed.

Lemma follow_user_never_raises_witness :
  ∃ rec ts,
    follow_user (VStr "did:plc:b") (VStr "b.bsky.social") limiting_world =
      (Ok rec,
       extend limiting_world
         [EvFollow (VStr "did:plc:b")
            (Raise (mkExn "Exception" "Rate Limit Exceeded"));
          EvNow ts])
    ∧ rec !! "error" = Some (VStr "Rate limited").
Proof.
  destruct (follow_user_never_raises (VStr "did:plc:b") (VStr "b.bsky.social")
              limiting_world) as (rec & ts & Hrun & _ & _ & _ & Hres).
  exists rec, ts. split; [exact Hrun|].
  destruct Hres as (_ & _ & Hlimited & _).
  apply Hlimited; reflexivity.
Defined.












Lemma no_did_result_fields handle :
  no_did_result handle !! "did" = Some VNone
  ∧ no_did_result handle !! "handle" = Some handle
  ∧ no_did_result handle !! "success" = Some (VBool false)
  ∧ no_did_result handle !! "error" = Some (VStr "No DID provided")
  ∧ no_did_result handle !! "timestamp" = None.
Proof. repeat split; reflexivity. Qed.

(** C7 fails on the code: the record written for an account without
    identifier has no timestamp, whereas every record [follow_user]
    writes has one. *)
Theorem follow_bulk_no_did_record_lacks_timestamp (self : t)
    (account : gmap string pyval) (w : World) :
  truthy (account_did account) = false →
  ∃ r,
    follow_bulk self [account] None w = (Ok (mkBulk true [r] (summary_of [r])), w)
    ∧ r !! "error" = Some (VStr "No DID provided")
    ∧ r !! "timestamp" = None
    ∧ ∀ did handle w0 rec w1,
        follow_user did handle w0 = (Ok rec, w1) → is_Some (rec !! "timestamp").
Proof.
  intros Hdid. exists (no_did_result (account_handle account)).
  split; [|split; [reflexivity | split; [reflexivity|]]].
  - unfold follow_bulk, accounts_to_process, bind.
    rewrite follow_loop_skip by done. cbn [follow_loop ret].
    change (record_result ?st ?r) with (foldl record_result st [r]).
    rewrite foldl_record_result. reflexivity.
  - intros did handle w0 rec w1 Hrun.
    destruct (follow_user_run did handle w0) as (rec' & ts & Hrun' & _ & _ & Hts & _).
    rewrite Hrun' in Hrun. injection Hrun as <- _. by eexists.
Qed.

Lemma follow_bulk_no_did_record_lacks_timestamp_witness :
  ∃ r,
    follow_bulk sample_follower [{[ "handle" := VStr "a.bsky.social" ]}] None
      limiting_world = (Ok (mkBulk true [r] (summary_of [r])), limiting_world)
    ∧ r !! "error" = Some (VStr "No DID provided")
    ∧ r !! "timestamp" = None.
Proof.
  destruct (follow_bulk_no_did_record_lacks_timestamp sample_follower
              {[ "handle" := VStr "a.bsky.social" ]} limiting_world)
    as (r & Hrun & Herr & Hts & _); [reflexivity|].
  exists r. split; [exact Hrun|]. split; [exact Herr | exact Hts].
Defined.





End FollowerClaims.

(** ** The scraper *)

Section Scraper.
Import BlueskyScraper.

(** Building the accounts of a page: one clock reading per actor. *)
Lemma append_accounts_run kw actors : ∀ acc w,
  ∃ tss new,
    length tss = length actors
    ∧ Forall2 (built_from kw) actors new
    ∧ append_accounts kw actors acc w = (Ok (acc ++ new), extend w (EvNow <$> tss)).
Proof.
  induction actors as [|actor rest IH]; intros acc w.
  - exists [], []. rewrite app_nil_r, extend_nil. by repeat split.
  - cbn [append_accounts]. unfold bind at 1, build_account, bind, now_isoformat, ret.
    destruct (IH (acc ++ [account_of_actor kw actor
                            (remote_clock (remote w) (trace w))])
                 (emit (EvNow (remote_clock (remote w) (trace w))) w))
      as (tss & new & Hlen & Hnew & Hrun).
    rewrite Hrun, emit_extend, extend_extend, <- app_assoc.
    exists (remote_clock (remote w) (trace w) :: tss),
           (account_of_actor kw actor (remote_clock (remote w) (trace w)) :: new).
    split; [cbn; lia|]. split; [|reflexivity].
    constructor; [by eexists | done].
Qed.

(** One pass through the body of the [while] loop. *)
Lemma scrape_page_run self kw st w :
  let p := search_params_of kw (cursor st) in
  match remote_search (remote w) (trace w) p with
  | Raise e =>
      scrape_page self kw st w = (Ok (st, Break), extend w [EvSearch p (Raise e)])
  | Ok resp =>
      match page_actors resp with
      | [] =>
          scrape_page self kw st w = (Ok (st, Break), extend w [EvSearch p (Ok resp)])
      | _ =>
          ∃ tss new,
            length tss = length (page_actors resp)
            ∧ Forall2 (built_from kw) (page_actors resp) new
            ∧ let st' := mkLocals (all_accounts st ++ new) (resp_cursor resp)
                           (page st + 1) in
              let w1 := extend w (EvSearch p (Ok resp) :: (EvNow <$> tss)) in
              scrape_page self kw st w =
                if negb (cursor_truthy (resp_cursor resp)) then (Ok (st', Break), w1)
                else if page st + 1 <? max_pages self then
                       if delay self <? 0 then (Ok (st', Break), w1)
                       else (Ok (st', Continue), extend w1 [EvSleep (delay self)])
                     else (Ok (st', Continue), w1)
      end
  end.
Proof.
  cbv zeta.
  assert (Hbody : ∀ A (body : search_response → M A) (handler : pyexn → M A),
    try_except (response <- search_actors (search_params_of kw (cursor st)) ;;
                body response)%py handler w =
    match remote_search (remote w) (trace w) (search_params_of kw (cursor st)) with
    | Ok resp =>
        try_except (body resp) handler
          (emit (EvSearch (search_params_of kw (cursor st)) (Ok resp)) w)
    | Raise e =>
        handler e (emit (EvSearch (search_params_of kw (cursor st)) (Raise e)) w)
    end).
  { intros A body handler. unfold try_except, bind, search_actors.
    by destruct (remote_search (remote w) (trace w)
                   (search_params_of kw (cursor st))). }
  unfold scrape_page. rewrite Hbody. clear Hbody.
  destruct (remote_search (remote w) (trace w) (search_params_of kw (cursor st)))
    as [resp|e] eqn:Hr; [|reflexivity].
  destruct (page_actors resp) as [|actor actors] eqn:Hact; [reflexivity|].
  destruct (append_accounts_run kw (actor :: actors) (all_accounts st)
              (emit (EvSearch (search_params_of kw (cursor st)) (Ok resp)) w))
    as (tss & new & Hlen & Hnew & Hrun).
  exists tss, new. split; [done|]. split; [done|].
  unfold try_except at 1. unfold bind. rewrite Hrun, emit_extend, extend_extend.
  change ([EvSearch (search_params_of kw (cursor st)) (Ok resp)] ++ (EvNow <$> tss))
    with (EvSearch (search_params_of kw (cursor st)) (Ok resp) :: (EvNow <$> tss)).
  destruct (cursor_truthy (resp_cursor resp)); cbn [negb andb]; [|reflexivity].
  destruct (page st + 1 <? max_pages self); cbn [andb]; [|reflexivity].
  unfold try_except, time_sleep, ret.
  destruct (delay self <? 0); [reflexivity|].
  by rewrite emit_extend, extend_extend.
Qed.

(** Every run of the [while] loop with enough fuel returns and follows
    the pagination protocol; the accounts it adds are those built from
    the pages it collected. *)
Lemma scrape_loop_run self kw fuel : ∀ st w,
  (Z.to_nat (max_pages self - page st) ≤ fuel)%nat →
  ∃ st' evs pages new,
    scrape_loop self kw fuel st w = (Ok st', extend w evs)
    ∧ paging self kw (page st) (cursor st) evs pages
    ∧ all_accounts st' = all_accounts st ++ new
    ∧ Forall2 (built_from kw) (concat pages) new.
Proof.
  induction fuel as [|fuel IH]; intros st w Hfuel.
  - exists st, [], [], []. rewrite extend_nil, app_nil_r.
    split; [reflexivity|]. split; [apply paging_cap; lia|]. by split; [|constructor].
  - cbn [scrape_loop]. destruct (Z.ltb_spec (page st) (max_pages self)) as [Hlt|Hge].
    2:{ exists st, [], [], []. rewrite extend_nil, app_nil_r.
        split; [reflexivity|]. split; [by apply paging_cap|].
        by split; [|constructor]. }
    unfold bind at 1. pose proof (scrape_page_run self kw st w) as Hpage.
    cbv zeta in Hpage.
    destruct (remote_search (remote w) (trace w) (search_params_of kw (cursor st)))
      as [resp|e].
    2:{ rewrite Hpage. exists st, [EvSearch (search_params_of kw (cursor st)) (Raise e)], [], [].
        rewrite app_nil_r. split; [reflexivity|].
        split; [by apply paging_raise|]. by split; [|constructor]. }
    destruct (page_actors resp) as [|actor actors] eqn:Hact.
    { rewrite Hpage. exists st, [EvSearch (search_params_of kw (cursor st)) (Ok resp)], [], [].
      rewrite app_nil_r. split; [reflexivity|].
      split; [by apply paging_empty|]. by split; [|constructor]. }
    destruct Hpage as (tss & new & Hlen & Hnew & Hpage). rewrite Hpage.
    assert (Hne : page_actors resp ≠ []) by (by rewrite Hact).
    rewrite <- Hact in *.
    destruct (cursor_truthy (resp_cursor resp)) eqn:Hcur; cbn [negb].
    2:{ eexists _, _, [page_actors resp], new. split; [reflexivity|].
        split; [by apply paging_end|]. split; [reflexivity|].
        cbn [concat]. by rewrite app_nil_r. }
    destruct (Z.ltb_spec (page st + 1) (max_pages self)) as [Hmore|Hcap].
    + destruct (Z.ltb_spec (delay self) 0) as [Hneg|Hpos].
      { eexists _, _, [page_actors resp], new. split; [reflexivity|].
        split; [by apply paging_sleep_raise|]. split; [reflexivity|].
        cbn [concat]. by rewrite app_nil_r. }
      rewrite extend_extend.
      destruct (IH (mkLocals (all_accounts st ++ new) (resp_cursor resp) (page st + 1))
                  (extend w ((EvSearch (search_params_of kw (cursor st)) (Ok resp)
                                :: (EvNow <$> tss)) ++ [EvSleep (delay self)])))
        as (st' & evs & pages & new' & Hloop & Hpaging & Hacc & Hbuilt).
      { cbn [page]. lia. }
      rewrite Hloop, extend_extend. cbn [page cursor all_accounts] in *.
      eexists st', _, (page_actors resp :: pages), (new ++ new').
      split; [reflexivity|].
      split; [|split; [by rewrite Hacc, app_assoc | by apply Forall2_app]].
      rewrite <- app_assoc. cbn [app].
      eapply (paging_next self kw (page st) (cursor st) resp tss
                [EvSleep (delay self)]); eauto.
      by destruct (Z.ltb_spec (page st + 1) (max_pages self)); [|lia].
    + destruct (IH (mkLocals (all_accounts st ++ new) (resp_cursor resp) (page st + 1))
                  (extend w (EvSearch (search_params_of kw (cursor st)) (Ok resp)
                                :: (EvNow <$> tss))))
        as (st' & evs & pages & new' & Hloop & Hpaging & Hacc & Hbuilt).
      { cbn [page]. lia. }
      rewrite Hloop, extend_extend. cbn [page cursor all_accounts] in *.
      eexists st', _, (page_actors resp :: pages), (new ++ new').
      split; [reflexivity|].
      split; [|split; [by rewrite Hacc, app_assoc | by apply Forall2_app]].
      cbn [app].
      eapply (paging_next self kw (page st) (cursor st) resp tss []); eauto.
      * lia.
      * by destruct (Z.ltb_spec (page st + 1) (max_pages self)); [lia|].
Qed.

(** [scrape_keyword] returns, whatever the remote service does. *)
Lemma scrape_keyword_run self kw w :
  ∃ accounts evs pages,
    scrape_keyword self kw w = (Ok accounts, extend w evs)
    ∧ paging self kw 0 None evs pages
    ∧ Forall2 (built_from kw) (concat pages) accounts.
Proof.
  unfold scrape_keyword, bind.
  destruct (scrape_loop_run self kw (Z.to_nat (max_pages self)) (mkLocals [] None 0) w)
    as (st' & evs & pages & new & Hloop & Hpaging & Hacc & Hbuilt).
  { cbn [page]. lia. }
  rewrite Hloop. exists (all_accounts st'), evs, pages.
  split; [reflexivity|]. split; [exact Hpaging|].
  by rewrite Hacc.
Qed.

(** *** Consequences of the pagination protocol *)

Lemma search_calls_app t1 t2 :
  search_calls (t1 ++ t2) = search_calls t1 ++ search_calls t2.
Proof. unfold search_calls. apply omap_app. Qed.


Lemma first_requests_app t1 t2 :
  first_requests (t1 ++ t2) = first_requests t1 ++ first_requests t2.
Proof. unfold first_requests. apply omap_app. Qed.

Lemma search_calls_now tss : search_calls (EvNow <$> tss) = [].
Proof. induction tss; [done|]. by cbn. Qed.


Lemma first_requests_now tss : first_requests (EvNow <$> tss) = [].
Proof. induction tss; [done|]. by cbn. Qed.

Lemma search_calls_search p r t :
  search_calls (EvSearch p r :: t) = (p, r) :: search_calls t.
Proof. reflexivity. Qed.

(** The clock readings and the delay between two pages hold no search. *)
Lemma search_calls_between self page tss rest :
  search_calls ((EvNow <$> tss)
                ++ (if page + 1 <? max_pages self then [EvSleep (delay self)] else [])
                ++ rest) = search_calls rest.
Proof.
  rewrite !search_calls_app, search_calls_now.
  by destruct (page + 1 <? max_pages self).
Qed.


Lemma first_requests_between self page tss rest :
  first_requests ((EvNow <$> tss)
                  ++ (if page + 1 <? max_pages self then [EvSleep (delay self)] else [])
                  ++ rest) = first_requests rest.
Proof.
  rewrite !first_requests_app, first_requests_now.
  by destruct (page + 1 <? max_pages self).
Qed.







(** Exactly one request of a pagination is sent without cursor: the
    first one, when the pagination starts without cursor below the cap. *)
Lemma paging_first_requests self kw page cursor evs pages :
  paging self kw page cursor evs pages →
  first_requests evs =
    if (page <? max_pages self) && negb (cursor_truthy cursor) then [kw] else [].
Proof.
  assert (Hhead : ∀ c r, first_requests [EvSearch (search_params_of kw c) r]
                         = if negb (cursor_truthy c) then [kw] else []).
  { intros c r. unfold first_requests, search_params_of. cbn.
    destruct c as [c|]; cbn; [|done]. by destruct (String.eqb c EmptyString). }
  induction 1 as [page cursor Hge | page cursor e Hlt | page cursor resp Hlt Hact
                  | page cursor resp tss Hlt Hact Hlen Hcur
                  | page cursor resp tss Hlt Hact Hlen Hcur Hmore Hneg
                  | page cursor resp tss pause rest pages Hlt Hact Hlen Hcur Hd Hpause
                      Hrest IH]; subst.
  - by destruct (Z.ltb_spec page (max_pages self)); [lia|].
  - destruct (Z.ltb_spec page (max_pages self)); [|lia]. apply Hhead.
  - destruct (Z.ltb_spec page (max_pages self)); [|lia]. apply Hhead.
  - destruct (Z.ltb_spec page (max_pages self)); [|lia].
    change (first_requests (?e :: ?l)) with (first_requests ([e] ++ l)).
    by rewrite first_requests_app, first_requests_now, app_nil_r, Hhead.
  - destruct (Z.ltb_spec page (max_pages self)); [|lia].
    change (first_requests (?e :: ?l)) with (first_requests ([e] ++ l)).
    by rewrite first_requests_app, first_requests_now, app_nil_r, Hhead.
  - destruct (Z.ltb_spec page (max_pages self)); [|lia].
    change (first_requests (?e :: ?l)) with (first_requests ([e] ++ l)).
    rewrite first_requests_app, first_requests_between, Hhead, IH, Hcur.
    cbn [negb andb]. by rewrite andb_false_r, app_nil_r.
Qed.




(** The pause between two keywords (lines 101-102). *)
Lemma keyword_pause_run self (i total : Z) w :
  0 <= delay self →
  ∃ evs,
    (if i <? total then time_sleep (delay self) else ret tt) w = (Ok tt, extend w evs)
    ∧ evs = (if i <? total then [EvSleep (delay self)] else []).
Proof.
  intros Hd. destruct (i <? total).
  - rewrite time_sleep_run by done. by eexists.
  - exists []. by rewrite extend_nil.
Qed.

(** With a delay that is not negative, the loop over the keywords
    returns and sends a first-page request for every keyword, in order,
    whatever the answers to the earlier requests were. *)
Lemma keywords_loop_run self total :
  0 <= delay self →
  ∀ keywords i acc w,
    ∃ accounts evs,
      keywords_loop self total i keywords acc w = (Ok (acc ++ accounts), extend w evs)
      ∧ first_requests evs = if 0 <? max_pages self then keywords else [].
Proof.
  intros Hd. induction keywords as [|kw rest IH]; intros i acc w.
  - exists [], []. rewrite app_nil_r, extend_nil. split; [reflexivity|].
    by destruct (0 <? max_pages self).
  - cbn [keywords_loop]. unfold bind at 1.
    destruct (scrape_keyword_run self kw w) as (accounts & evs & pages & Hrun & Hpaging & _).
    rewrite Hrun. unfold bind at 1.
    destruct (keyword_pause_run self i total (extend w evs) Hd) as (pause & Hpause & Hp).
    rewrite Hpause, extend_extend.
    destruct (IH (i + 1) (acc ++ accounts) (extend w (evs ++ pause)))
      as (accounts' & evs' & Hloop & Hreq).
    rewrite Hloop, extend_extend, <- app_assoc.
    exists (accounts ++ accounts'), ((evs ++ pause) ++ evs').
    split; [reflexivity|].
    rewrite !first_requests_app, Hreq.
    rewrite (paging_first_requests _ _ _ _ _ _ Hpaging).
    assert (first_requests pause = []) as ->.
    { subst pause. by destruct (i <? total). }
    cbn [cursor_truthy negb]. rewrite andb_true_r.
    by destruct (0 <? max_pages self).
Qed.

End Scraper.

(** ** The scraper: the claims *)

Section ScraperClaims.
Import BlueskyScraper.






End ScraperClaims.

(** ** The scraper: further properties *)

Section ScraperExtras.
Import BlueskyScraper.






(** Within a pagination the requests walk the cursor. *)
Lemma paging_chained self kw page cursor evs pages :
  paging self kw page cursor evs pages →
  cursor_chained kw cursor (search_calls evs).
Proof.
  induction 1 as [page cursor Hge | page cursor e Hlt | page cursor resp Hlt Hact
                  | page cursor resp tss Hlt Hact Hlen Hcur
                  | page cursor resp tss Hlt Hact Hlen Hcur Hmore Hneg
                  | page cursor resp tss pause rest pages Hlt Hact Hlen Hcur Hd Hpause
                      Hrest IH]; subst;
    rewrite ?search_calls_search, ?search_calls_between, ?search_calls_now.
  - split; [intros p r H | intros j p1 r1 p2 r2 H _]; cbn in H; done.
  - split; [intros p r [= <- _]; done | intros j p1 r1 p2 r2 _ H; by destruct j].
  - split; [intros p r [= <- _]; done | intros j p1 r1 p2 r2 _ H; by destruct j].
  - split; [intros p r [= <- _]; done | intros j p1 r1 p2 r2 _ H; by destruct j].
  - split; [intros p r [= <- _]; done | intros j p1 r1 p2 r2 _ H; by destruct j].
  - destruct IH as [IHfirst IHnext].
    split; [intros p r [= <- _]; done|].
    intros [|j] p1 r1 p2 r2 H1 H2; cbn [lookup list_lookup] in H1, H2.
    + injection H1 as <- <-. exists resp. repeat split; [done | done |].
      rewrite (IHfirst p2 r2 H2). unfold search_params_of. by rewrite Hcur.
    + by eapply IHnext.
Qed.



(** X1: the requests of [scrape_keyword] walk the cursor.  The first
    request is sent for the keyword with limit 100 and no cursor; a
    request is followed by another only if it returned actors and a truthy
    cursor, and the next request carries exactly that cursor, the same
    keyword and limit 100. *)
Theorem scrape_keyword_cursor_chain (self : t) (kw : string) (w : World) :
  ∃ accounts evs,
    scrape_keyword self kw w = (Ok accounts, extend w evs)
    ∧ (∀ p r, search_calls evs !! 0%nat = Some (p, r) → p = mkParams kw 100 None)
    ∧ ∀ j p1 r1 p2 r2,
        search_calls evs !! j = Some (p1, r1) →
        search_calls evs !! S j = Some (p2, r2) →
        ∃ resp,
          r1 = Ok resp
          ∧ page_actors resp ≠ []
          ∧ cursor_truthy (resp_cursor resp) = true
          ∧ p2 = mkParams kw 100 (resp_cursor resp).
Proof.
  destruct (scrape_keyword_run self kw w)
    as (accounts & evs & pages & Hrun & Hpaging & _).
  exists accounts, evs. split; [exact Hrun|].
  exact (paging_chained _ _ _ _ _ _ Hpaging).
Qed.

Lemma scrape_keyword_cursor_chain_witness :
  ∃ accounts evs,
    scrape_keyword (init 5 2) "ai" two_page_world
      = (Ok accounts, extend two_page_world evs)
    ∧ ∀ p r, search_calls evs !! 0%nat = Some (p, r) → p = mkParams "ai" 100 None.
Proof.
  destruct (scrape_keyword_cursor_chain (init 5 2) "ai" two_page_world)
    as (accounts & evs & Hrun & Hfirst & _).
  by exists accounts, evs.
Defined.














End ScraperExtras.

(** ** Deduplication: further properties *)

Section DeduplicateExtras.
Import BlueskyScraper.

(** As many accounts are kept as there are identifiers not seen before. *)
Lemma kept_length seen X :
  length (kept seen X) = size ((list_to_set (did <$> X) : gset string) ∖ seen).
Proof.
  revert seen. induction X as [|a rest IH]; intros seen; cbn [kept].
  - cbn. by rewrite difference_disjoint_L, size_empty by set_solver.
  - rewrite fmap_cons, list_to_set_cons.
    destruct (decide (did a ∈ seen)) as [Hin|Hnin].
    + rewrite IH. f_equal. set_solver.
    + cbn [length]. rewrite IH.
      set (fresh := (list_to_set (did <$> rest) ∖ (seen ∪ {[did a]}) : gset string)).
      assert (Hsize : size ({[did a]} ∪ fresh) = S (size fresh)).
      { rewrite size_union by set_solver. by rewrite size_singleton. }
      rewrite <- Hsize. f_equal. subst fresh.
      apply set_eq. intros x. destruct (decide (x = did a)); set_solver.
Qed.

(** X6: [deduplicate] remembers across calls.  After a call on input [X]
    with prior identifiers [S] the scraper's seen-set is the old one
    together with [S] and every identifier of [X] (kept or not), its other
    attributes are unchanged, and a later call on the same scraper never
    returns an account whose identifier occurred in [X], in [S], in the
    old seen-set or in its own prior identifiers. *)
Theorem deduplicate_across_calls (self : t) (X X' : list Account)
    (S S' : option (list string)) :
  let first := deduplicate self X S in
  let second := deduplicate (snd first) X' S' in
  seen_dids (snd first)
    = seen_dids self ∪ list_to_set (supplied S) ∪ list_to_set (did <$> X)
  ∧ max_pages (snd first) = max_pages self
  ∧ delay (snd first) = delay self
  ∧ ∀ a, a ∈ fst second →
         did a ∉ (did <$> X) ∧ did a ∉ seen_dids self
         ∧ did a ∉ supplied S ∧ did a ∉ supplied S'.
Proof.
  cbv zeta. rewrite !deduplicate_kept. cbn [fst snd seen_dids max_pages delay].
  split; [reflexivity|]. split; [reflexivity|]. split; [reflexivity|].
  intros a Ha%kept_not_seen. set_solver.
Qed.

(** X7: [deduplicate] returns exactly one account per new identifier: the
    length of its result is the number of distinct identifiers of the
    input that are neither in the seen-set nor among the prior identifiers,
    and never more than the length of the input. *)
Theorem deduplicate_length (self : t) (X : list Account) (S : option (list string)) :
  length (fst (deduplicate self X S))
    = size ((list_to_set (did <$> X) : gset string)
            ∖ (seen_dids self ∪ list_to_set (supplied S)))
  ∧ (length (fst (deduplicate self X S)) ≤ length X)%nat.
Proof.
  rewrite deduplicate_kept. cbn [fst]. split; [apply kept_length|].
  apply sublist_length, kept_sublist.
Qed.

End DeduplicateExtras.

(** ** The follower: further properties *)

Section FollowerExtras.
Import BlueskyFollower.

(** One follow attempt, with the shape of the record it writes. *)
Lemma follow_user_shape did handle w :
  let r := remote_follow (remote w) (trace w) did in
  ∃ rec ts (b : bool),
    follow_user did handle w = (Ok rec, emit (EvNow ts) (emit (EvFollow did r) w))
    ∧ well_shaped rec
    ∧ rec !! "success" = Some (VBool b)
    ∧ (b = true ↔ ∃ resp, r = Ok resp)
    ∧ (b = false → ∃ msg, rec !! "error" = Some (VStr (error_reason msg))).
Proof.
  cbv zeta. unfold follow_user, try_except, bind, client_follow.
  destruct (remote_follow (remote w) (trace w) did) as [resp|e] eqn:Hr.
  - eexists _, _, true. split; [reflexivity|].
    split; [left; split; reflexivity|]. split; [reflexivity|].
    split; [split; eauto | discriminate].
  - assert (Hno' : false = true ↔ ∃ resp, @Raise follow_response e = Ok resp)
      by (split; [done | intros [? ?]; discriminate]).
    destruct (contains "already following" (lower (exn_str e))) eqn:Ha.
    { eexists _, _, false. split; [reflexivity|].
      split; [right; split; [reflexivity|]; split; [by eexists | left; reflexivity]|].
      split; [reflexivity|]. split; [exact Hno'|].
      intros _. exists (exn_str e). unfold error_reason. by rewrite Ha. }
    destruct (contains "rate limit" (lower (exn_str e))) eqn:Hl.
    { eexists _, _, false. split; [reflexivity|].
      split; [right; split; [reflexivity|]; split; [by eexists | left; reflexivity]|].
      split; [reflexivity|]. split; [exact Hno'|].
      intros _. exists (exn_str e). unfold error_reason. by rewrite Ha, Hl. }
    eexists _, _, false. split; [reflexivity|].
    split; [right; split; [reflexivity|]; split; [by eexists | left; reflexivity]|].
    split; [reflexivity|]. split; [exact Hno'|].
    intros _. exists (exn_str e). unfold error_reason. by rewrite Ha, Hl.
Qed.

(** One pass of the loop over an account with an identifier, in full:
    the record, the interactions, and what the loop does next. *)
Lemma follow_loop_attempt_exact self total i account rest st w :
  truthy (account_did account) = true →
  let r := remote_follow (remote w) (trace w) (account_did account) in
  ∃ rec ts,
    well_shaped rec
    ∧ (outcome_of rec = Success ↔ ∃ resp, r = Ok resp)
    ∧ follow_loop self total i (account :: rest) st w =
        let w1 := extend w [EvFollow (account_did account) r; EvNow ts] in
        if decide (outcome_of rec = RateLimited)
        then (Ok (record_result st rec), w1)
        else if (i <? total) && bool_decide (outcome_of rec = Success)
             then if delay self <? 0
                  then (Raise (mkExn "ValueError" "sleep length must be non-negative"),
                        w1)
                  else follow_loop self total (i + 1) rest (record_result st rec)
                         (extend w1 [EvSleep (delay self)])
             else follow_loop self total (i + 1) rest (record_result st rec) w1.
Proof.
  intros Hdid. cbv zeta.
  destruct (follow_user_shape (account_did account) (account_handle account) w)
    as (rec & ts & b & Hrun & Hshape & Hb & Hok & Herr).
  cbv zeta in Hok. rewrite !emit_extend, extend_extend in Hrun.
  exists rec, ts. split; [exact Hshape|].
  assert (Hsucc : outcome_of rec = Success ↔ b = true).
  { rewrite outcome_success_iff, Hb. split; [by intros [= ->] | by intros ->]. }
  split; [by rewrite Hsucc|].
  cbn [follow_loop]. rewrite Hdid. cbn [negb].
  unfold bind at 1. rewrite Hrun.
  unfold bind at 1. erewrite count_result_run by eauto.
  change (bump (outcome_of rec) _) with (record_result st rec).
  destruct (decide (outcome_of rec = RateLimited)) as [Hrl|Hrl]; [reflexivity|].
  unfold bind at 1. destruct (i <? total); cbn [andb].
  - unfold bind at 1, dict_getitem. rewrite Hb. cbn [ret truthy].
    destruct b.
    + rewrite bool_decide_eq_true_2 by (by apply Hsucc).
      unfold time_sleep. destruct (delay self <? 0); [reflexivity|].
      by rewrite emit_extend.
    + rewrite bool_decide_eq_false_2; [reflexivity|].
      intros Hs%Hsucc. discriminate.
  - reflexivity.
Qed.

Lemma sleep_calls_app t1 t2 : sleep_calls (t1 ++ t2) = sleep_calls t1 ++ sleep_calls t2.
Proof. unfold sleep_calls. apply omap_app. Qed.

(** The pattern "sleep right after an accepted follow and its clock
    reading" is kept by joining traces. *)
Lemma sleep_after_success_app (a b : list event) :
  sleep_after_success a → sleep_after_success b → sleep_after_success (a ++ b).
Proof.
  intros Ha Hb j secs Hj.
  apply lookup_app_Some in Hj as [Hj | [Hge Hj]].
  - destruct (Ha j secs Hj) as (k & target & resp & ts & -> & Hk & Hk').
    exists k, target, resp, ts. split; [done|].
    split; apply lookup_app_l_Some; done.
  - destruct (Hb _ secs Hj) as (k & target & resp & ts & Hjk & Hk & Hk').
    exists (length a + k)%nat, target, resp, ts. split; [lia|].
    split.
    + rewrite lookup_app_r by lia. by replace (length a + k - length a)%nat with k by lia.
    + rewrite lookup_app_r by lia.
      by replace (S (length a + k) - length a)%nat with (S k) by lia.
Qed.

Lemma sleep_after_success_nil : sleep_after_success [].
Proof. intros j secs Hj. by rewrite lookup_nil in Hj. Qed.

Lemma sleep_after_success_attempt target r ts :
  sleep_after_success [EvFollow target r; EvNow ts].
Proof. intros [|[|[|j]]] secs Hj; done. Qed.

Lemma sleep_after_success_pause target resp ts d :
  sleep_after_success [EvFollow target (Ok resp); EvNow ts; EvSleep d].
Proof.
  intros [|[|[|[|j]]]] secs Hj; try done.
  by exists 0%nat, target, resp, ts.
Qed.

Lemma well_shaped_no_did handle : well_shaped (no_did_result handle).
Proof.
  right. split; [reflexivity|]. split; [by eexists | right; reflexivity].
Qed.

(** Every run of the loop, with its pauses and the shape of its records:
    either it returns, or a negative delay made [time.sleep] raise. *)
Lemma follow_loop_trace self total accounts :
  ∀ i st w,
    (∃ rs evs,
        follow_loop self total i accounts st w
          = (Ok (foldl record_result st rs), extend w evs)
        ∧ sleep_calls evs = replicate (pauses_after total i rs) (delay self)
        ∧ sleep_after_success evs
        ∧ Forall well_shaped rs)
    ∨ (delay self < 0
       ∧ ∃ w', follow_loop self total i accounts st w
               = (Raise (mkExn "ValueError" "sleep length must be non-negative"), w')).
Proof.
  induction accounts as [|account rest IH]; intros i st w.
  - left. exists [], []. rewrite extend_nil.
    split; [reflexivity|]. split; [reflexivity|].
    split; [apply sleep_after_success_nil | constructor].
  - destruct (truthy (account_did account)) eqn:Hdid.
    + destruct (follow_loop_attempt_exact self total i account rest st w Hdid)
        as (rec & ts & Hshape & Hsucc & Hstep). cbv zeta in Hstep, Hsucc.
      rewrite Hstep. clear Hstep.
      destruct (decide (outcome_of rec = RateLimited)) as [Hrl|Hrl].
      * left. eexists [rec], _. split; [reflexivity|].
        split.
        { cbn [pauses_after sleep_calls omap list_omap].
          rewrite bool_decide_eq_false_2 by congruence.
          by rewrite andb_false_r. }
        split; [apply sleep_after_success_attempt|].
        constructor; [done | constructor].
      * destruct ((i <? total) && bool_decide (outcome_of rec = Success)) eqn:Hpause.
        -- apply andb_true_iff in Hpause as [Hi Hs].
           apply bool_decide_eq_true_1 in Hs. destruct (proj1 Hsucc Hs) as [resp Hresp].
           rewrite Hresp in *.
           destruct (Z.ltb_spec (delay self) 0) as [Hneg|Hpos].
           { right. split; [done|]. by eexists. }
           rewrite extend_extend.
           destruct (IH (i + 1) (record_result st rec)
                       (extend w ([EvFollow (account_did account) (Ok resp); EvNow ts]
                                  ++ [EvSleep (delay self)])))
             as [(rs & evs & Hloop & Hsleeps & Hpat & Hshapes) | (Hneg & w' & Hloop)];
             rewrite Hloop.
           ++ left. rewrite extend_extend.
              eexists (rec :: rs), _. split; [reflexivity|].
              split.
              { rewrite sleep_calls_app, Hsleeps. cbn [pauses_after].
                rewrite Hi, bool_decide_eq_true_2 by done. reflexivity. }
              split; [|by constructor].
              apply sleep_after_success_app; [apply sleep_after_success_pause | done].
           ++ right. split; [done|]. by eexists.
        -- destruct (IH (i + 1) (record_result st rec)
                       (extend w [EvFollow (account_did account)
                                    (remote_follow (remote w) (trace w)
                                       (account_did account)); EvNow ts]))
             as [(rs & evs & Hloop & Hsleeps & Hpat & Hshapes) | (Hneg & w' & Hloop)];
             rewrite Hloop.
           ++ left. rewrite extend_extend.
              eexists (rec :: rs), _. split; [reflexivity|].
              split.
              { rewrite sleep_calls_app, Hsleeps. cbn [pauses_after].
                by rewrite Hpause. }
              split; [|by constructor].
              apply sleep_after_success_app; [apply sleep_after_success_attempt | done].
           ++ right. split; [done|]. by eexists.
    + rewrite follow_loop_skip by done.
      destruct (IH (i + 1) (record_result st (no_did_result (account_handle account))) w)
        as [(rs & evs & Hloop & Hsleeps & Hpat & Hshapes) | (Hneg & w' & Hloop)];
        rewrite Hloop.
      * left. exists (no_did_result (account_handle account) :: rs), evs.
        split; [reflexivity|].
        split.
        { rewrite Hsleeps. cbn [pauses_after]. rewrite outcome_no_did.
          rewrite bool_decide_eq_false_2 by done. by rewrite andb_false_r. }
        split; [done|]. constructor; [apply well_shaped_no_did | done].
      * right. split; [done|]. by eexists.
Qed.

(** [follow_bulk] as a whole, with its pauses and record shapes. *)
Lemma follow_bulk_trace self accounts max_follows w :
  (∃ rs evs,
      follow_bulk self accounts max_follows w
        = (Ok (mkBulk true rs (summary_of rs)), extend w evs)
      ∧ sleep_calls evs
        = replicate
            (pauses_after
               (Z.of_nat (length (accounts_to_process accounts max_follows))) 1 rs)
            (delay self)
      ∧ sleep_after_success evs
      ∧ Forall well_shaped rs)
  ∨ (delay self < 0
     ∧ ∃ w', follow_bulk self accounts max_follows w
             = (Raise (mkExn "ValueError" "sleep length must be non-negative"), w')).
Proof.
  unfold follow_bulk, bind.
  destruct (follow_loop_trace self
              (Z.of_nat (length (accounts_to_process accounts max_follows)))
              (accounts_to_process accounts max_follows) 1 (mkLocals [] 0 0 0 0) w)
    as [(rs & evs & Hloop & Hsleeps & Hpat & Hshapes) | (Hneg & w' & Hloop)];
    rewrite Hloop.
  - left. exists rs, evs. split; [|done].
    rewrite foldl_record_result. cbn. reflexivity.
  - right. split; [done|]. by exists w'.
Qed.

(** X8: the pauses of [follow_bulk].  Whenever it returns, it has slept
    exactly once, for the configured delay, after each record that stands
    for a success and is not at the last position of the list to process -
    never after a skipped account, a failure or a rate limit - and every
    sleep comes directly after the clock reading that follows an accepted
    follow call. *)
Theorem follow_bulk_pauses (self : t) (accounts : list (gmap string pyval))
    (max_follows : option Z) (w : World) (res : BulkResult) (w' : World) :
  follow_bulk self accounts max_follows w = (Ok res, w') →
  ∃ evs,
    w' = extend w evs
    ∧ sleep_calls evs
      = replicate
          (pauses_after (Z.of_nat (length (accounts_to_process accounts max_follows)))
             1 (bulk_results res))
          (delay self)
    ∧ ∀ j secs, evs !! j = Some (EvSleep secs) →
        ∃ k target resp ts,
          j = S (S k)
          ∧ evs !! k = Some (EvFollow target (Ok resp))
          ∧ evs !! S k = Some (EvNow ts).
Proof.
  intros Hrun.
  destruct (follow_bulk_trace self accounts max_follows w)
    as [(rs & evs & Heq & Hsleeps & Hpat & _) | (_ & w0 & Heq)];
    rewrite Heq in Hrun; [|discriminate].
  injection Hrun as <- <-. by exists evs.
Qed.

Lemma follow_bulk_pauses_witness :
  ∃ res evs,
    follow_bulk sample_follower sample_batch None limiting_world
      = (Ok res, extend limiting_world evs)
    ∧ sleep_calls evs = replicate (pauses_after 3 1 (bulk_results res)) 5.
Proof.
  destruct (follow_bulk_returns sample_follower sample_batch None limiting_world)
    as (rs & evs & Hrun & _); [cbn; lia|].
  destruct (follow_bulk_pauses sample_follower sample_batch None limiting_world
              _ _ Hrun) as (evs' & Hw & Hsleeps & _).
  eexists _, evs'. split; [rewrite Hrun, Hw; reflexivity | exact Hsleeps].
Defined.






(** X11: every record [follow_bulk] returns has one of three shapes, in
    line with its success flag: a success has exactly the keys did,
    handle, success, uri and timestamp; a failure has a string under
    'error', no 'uri', and exactly the keys did, handle, success, error
    and timestamp - or, for an account without identifier, those without
    timestamp. *)
Theorem follow_bulk_record_shapes (self : t) (accounts : list (gmap string pyval))
    (max_follows : option Z) (w : World) (res : BulkResult) (w' : World) :
  follow_bulk self accounts max_follows w = (Ok res, w') →
  ∀ r, r ∈ bulk_results res →
    (r !! "success" = Some (VBool true)
     ∧ dom r = ({[ "did"; "handle"; "success"; "uri"; "timestamp" ]} : gset string))
    ∨ (r !! "success" = Some (VBool false)
       ∧ (∃ e, r !! "error" = Some (VStr e))
       ∧ (dom r = ({[ "did"; "handle"; "success"; "error"; "timestamp" ]} : gset string)
          ∨ dom r = ({[ "did"; "handle"; "success"; "error" ]} : gset string))).
Proof.
  intros Hrun r Hr.
  destruct (follow_bulk_trace self accounts max_follows w)
    as [(rs & evs & Heq & _ & _ & Hshapes) | (_ & w0 & Heq)];
    rewrite Heq in Hrun; [|discriminate].
  injection Hrun as <- _. cbn [bulk_results] in Hr.
  rewrite Forall_forall in Hshapes. exact (Hshapes r Hr).
Qed.

Lemma follow_bulk_record_shapes_witness :
  ∃ res w',
    follow_bulk sample_follower sample_batch None limiting_world = (Ok res, w')
    ∧ ∀ r, r ∈ bulk_results res →
        (r !! "success" = Some (VBool true)
         ∧ dom r = ({[ "did"; "handle"; "success"; "uri"; "timestamp" ]} : gset string))
        ∨ (r !! "success" = Some (VBool false)
           ∧ (∃ e, r !! "error" = Some (VStr e))
           ∧ (dom r
              = ({[ "did"; "handle"; "success"; "error"; "timestamp" ]} : gset string)
              ∨ dom r = ({[ "did"; "handle"; "success"; "error" ]} : gset string))).
Proof.
  destruct (follow_bulk_returns sample_follower sample_batch None limiting_world)
    as (rs & evs & Hrun & _); [cbn; lia|].
  eexists _, _. split; [exact Hrun|].
  exact (follow_bulk_record_shapes sample_follower sample_batch None limiting_world
           _ _ Hrun).
Defined.

(** X12: the slice by [max_follows] at its edges.  A negative
    [max_follows = n] drops the last [-n] accounts (all of them when the
    list is not longer than [-n]); a [max_follows] that is at least the
    length of the list changes nothing. *)
Theorem follow_bulk_max_follows_slice (self : t) (accounts : list (gmap string pyval))
    (n : Z) (w : World) :
  (n < 0 →
   follow_bulk self accounts (Some n) w
     = follow_bulk self (take (length accounts - Z.to_nat (- n)) accounts) None w)
  ∧ (Z.of_nat (length accounts) <= n →
     follow_bulk self accounts (Some n) w = follow_bulk self accounts None w).
Proof.
  split; intros Hn; unfold follow_bulk, accounts_to_process, py_slice_to.
  - destruct (Z.eqb_spec n 0); [lia|]. cbn [negb].
    destruct (Z.ltb_spec n 0); [|lia].
    by replace (Z.to_nat (Z.of_nat (length accounts) + n))
      with (length accounts - Z.to_nat (- n))%nat by lia.
  - destruct (Z.eqb_spec n 0); [reflexivity|]. cbn [negb].
    destruct (Z.ltb_spec n 0); [lia|].
    by rewrite take_ge by lia.
Qed.

Lemma follow_bulk_max_follows_slice_witness :
  follow_bulk sample_follower sample_batch (Some (-1)) limiting_world
    = follow_bulk sample_follower
        [sample_target "did:plc:a" "a.bsky.social";
         sample_target "did:plc:b" "b.bsky.social"] None limiting_world
  ∧ follow_bulk sample_follower sample_batch (Some 7) limiting_world
    = follow_bulk sample_follower sample_batch None limiting_world.
Proof.
  destruct (follow_bulk_max_follows_slice sample_follower sample_batch (-1)
              limiting_world) as [Hneg _].
  destruct (follow_bulk_max_follows_slice sample_follower sample_batch 7
              limiting_world) as [_ Hbig].
  split; [apply Hneg; lia | apply Hbig; cbn; lia].
Defined.

End FollowerExtras.

(** ** The endpoints *)

Section ApiExtras.

(** [scrape_multiple_keywords] returns when the delay is not negative or
    there is at most one keyword. *)
Lemma scrape_multiple_keywords_returns self keywords w :
  0 <= BlueskyScraper.delay self ∨ (length keywords ≤ 1)%nat →
  ∃ accounts w',
    BlueskyScraper.scrape_multiple_keywords self keywords w = (Ok accounts, w').
Proof.
  intros [Hd | Hlen].
  - unfold BlueskyScraper.scrape_multiple_keywords.
    destruct (keywords_loop_run self (Z.of_nat (length keywords)) Hd keywords 1 [] w)
      as (accounts & evs & Hrun & _).
    by eexists _, _.
  - destruct keywords as [|kw [|kw' rest]]; [| |cbn [length] in Hlen; lia].
    + by eexists _, _.
    + unfold BlueskyScraper.scrape_multiple_keywords.
      cbn [BlueskyScraper.keywords_loop]. unfold bind at 1.
      destruct (scrape_keyword_run self kw w) as (accounts & evs & pages & Hrun & _).
      rewrite Hrun. by eexists _, _.
Qed.

Lemma scrape_answers request w :
  0 <= Api.delay request ∨ (length (Api.keywords request) ≤ 1)%nat →
  ∃ body w', Api.scrape request w = (Api.Http200 body, w').
Proof.
  intros Hok. unfold Api.scrape, Api.endpoint, bind.
  destruct (scrape_multiple_keywords_returns
              (BlueskyScraper.init (Api.max_pages request) (Api.delay request))
              (Api.keywords request) w Hok) as (accounts & w' & Hrun).
  rewrite Hrun, deduplicate_kept. by eexists _, _.
Qed.


(** X13: the counts of a scrape response.  Whenever [POST /scrape]
    answers, [total_scraped] is [unique_accounts] plus
    [duplicates_removed], none of them negative; [unique_accounts] is the
    number of accounts returned and [keywords_processed] the number of
    keywords; the accounts returned have pairwise distinct identifiers,
    none of which is among the request's [seen_dids]. *)
Theorem scrape_response_counts (request : Api.ScrapeRequest) (w : World)
    (body : Api.ScrapeResponse) (w' : World) :
  Api.scrape request w = (Api.Http200 body, w') →
  Api.total_scraped body = Api.unique_accounts body + Api.duplicates_removed body
  ∧ 0 <= Api.duplicates_removed body
  ∧ Api.unique_accounts body = Z.of_nat (length (Api.accounts body))
  ∧ Api.keywords_processed body = Z.of_nat (length (Api.keywords request))
  ∧ Api.success body = true
  ∧ NoDup (BlueskyScraper.did <$> Api.accounts body)
  ∧ ∀ a, a ∈ Api.accounts body → BlueskyScraper.did a ∉ Api.seen_dids request.
Proof.
  unfold Api.scrape, Api.endpoint, bind.
  destruct (BlueskyScraper.scrape_multiple_keywords _ _ w) as [[scraped|e] w1];
    [|discriminate].
  rewrite deduplicate_kept. unfold ret. intros [= <- _].
  cbn [Api.total_scraped Api.unique_accounts Api.duplicates_removed
       Api.keywords_processed Api.success Api.accounts].
  pose proof (sublist_length _ _
    (kept_sublist (∅ ∪ list_to_set (Api.seen_dids request)) scraped)).
  split; [lia|]. split; [lia|]. split; [reflexivity|]. split; [reflexivity|].
  split; [reflexivity|]. split; [apply kept_NoDup|].
  intros a Ha%kept_not_seen. set_solver.
Qed.

Lemma scrape_response_counts_witness :
  ∃ body w',
    Api.scrape (Api.mkScrapeRequest ["ai"; "ml"] 5 2 ["did:plc:b"]) two_page_world
      = (Api.Http200 body, w')
    ∧ Api.total_scraped body = Api.unique_accounts body + Api.duplicates_removed body
    ∧ NoDup (BlueskyScraper.did <$> Api.accounts body).
Proof.
  assert (Hrun : ∃ body w',
    Api.scrape (Api.mkScrapeRequest ["ai"; "ml"] 5 2 ["did:plc:b"]) two_page_world
      = (Api.Http200 body, w')).
  { apply scrape_answers. left. cbn. lia. }
  destruct Hrun as (body & w' & Hrun).
  exists body, w'. split; [exact Hrun|].
  destruct (scrape_response_counts _ _ _ _ Hrun) as (Hsum & _ & _ & _ & _ & Hnd & _).
  split; [exact Hsum | exact Hnd].
Defined.



(** A failed login ends [new_follower] with the error of the service. *)
Lemma new_follower_login_failure auth handle app_password delay_seconds w e :
  auth (trace w) handle app_password = Raise e →
  Api.new_follower auth handle app_password delay_seconds w = (Raise e, w).
Proof.
  intros Hauth. unfold Api.new_follower, Api.login, bind, try_except, raise.
  by rewrite Hauth.
Qed.


(** X15: a failed login.  When the service refuses the login,
    [POST /follow] answers 500 with the text of that error, and the world
    is left as it was: no follow call is made for any account. *)
Theorem follow_login_failure (auth : Api.login_oracle) (request : Api.FollowRequest)
    (w : World) (e : pyexn) :
  auth (trace w) (Api.req_handle request) (Api.req_app_password request) = Raise e →
  Api.follow auth request w = (Api.HttpError 500 (exn_str e), w).
Proof.
  intros Hauth. unfold Api.follow, Api.endpoint, bind.
  by rewrite (new_follower_login_failure _ _ _ _ _ _ Hauth).
Qed.

Lemma follow_login_failure_witness :
  Api.follow strict_login
    (Api.mkFollowRequest "me.bsky.social" "wrong-password" sample_batch 5 None)
    limiting_world
  = (Api.HttpError 500 "Invalid identifier or password", limiting_world).
Proof.
  apply (follow_login_failure strict_login
           (Api.mkFollowRequest "me.bsky.social" "wrong-password" sample_batch 5 None)
           limiting_world
           (mkExn "UnauthorizedError" "Invalid identifier or password")).
  reflexivity.
Defined.



End ApiExtras.
